(** * Linux Show Player: the list layout's cue sequencing engine

    A shallow embedding of [lisp/plugins/list_layout/layout.py] (class
    [ListLayout]) and of the bulk-edit entry point of
    [lisp/layouts/cue_layout.py] (class [CueLayout]).

    Python integers are [Z]; the layout object is a record that every
    method threads through a small state-and-exception monad, so that a
    raised exception keeps the effects performed before it, as in Python. *)

From stdpp Require Import prelude.

Local Open Scope Z_scope.

(** ** Cues, actions and exceptions *)

(** Modelled from the spec: the cue classes ([lisp.cues]) are not part of the
    sources; the spec asks for a closed, known set of cue subtypes under the
    root class [Cue] (audio, light and automation cues). *)
Inductive CueType := Cue | AudioCue | LightCue | ActionCue.

#[global] Instance CueType_eq_dec : EqDecision CueType.
Proof. solve_decision. Defined.

Definition issubclass (c base : CueType) : bool :=
  match base with
  | Cue => true
  | _ => bool_decide (c = base)
  end.

(** A cue object.  [cue_id] stands for the identity of the Python object
    (what [is] compares); [index] is the attribute the collection keeps in
    sync, and that a removed cue keeps from its last position. *)
Record CueObj := mkCue { cue_id : nat; index : Z; cue_class : CueType }.

#[global] Instance CueObj_eq_dec : EqDecision CueObj.
Proof. solve_decision. Defined.

Definition isinstance (c : CueObj) (cue_type : CueType) : bool :=
  issubclass (cue_class c) cue_type.

(** [a is b] on cue objects, where [b] may be [None]. *)
Definition cue_is (a : CueObj) (b : option CueObj) : bool :=
  match b with
  | Some b => bool_decide (cue_id a = cue_id b)
  | None => false
  end.

(** [lisp.cues.cue.CueAction]; only [Default] is named by the layout. *)
Inductive CueAction := Default | Start | Stop | Pause | Interrupt.

(** What the layout does to its collaborators, in program order. *)
Inductive Event :=
| Execute (c : CueObj) (action : CueAction)   (* c.execute(action) *)
| CueExecuted (c : CueObj).                   (* cue_executed.emit(c) *)

Inductive exn := IndexError | KeyError | TypeError | AttributeError | NotFoundError.

#[global] Instance exn_eq_dec : EqDecision exn.
Proof. solve_decision. Defined.

Inductive result (A : Type) := Ok (a : A) | Raise (e : exn).
Arguments Ok {A} a.
Arguments Raise {A} e.

(** ** The layout object *)

(** The list widget: one top-level item per row, each with its selected
    flag, and the current (standby) item. *)
Record CueListView := mkView {
  selected : list bool;
  standby : option Z
}.

Record ListLayout := mkLayout {
  _list_model : list CueObj;
  _auto_continue : bool;
  listView : CueListView;
  emitted : list Event
}.

Definition with_view (v : CueListView) (s : ListLayout) : ListLayout :=
  mkLayout (_list_model s) (_auto_continue s) v (emitted s).

Definition with_standby (c : option Z) (s : ListLayout) : ListLayout :=
  with_view (mkView (selected (listView s)) c) s.

Definition with_selected (sel : list bool) (s : ListLayout) : ListLayout :=
  with_view (mkView sel (standby (listView s))) s.

Definition with_emitted (ev : list Event) (s : ListLayout) : ListLayout :=
  mkLayout (_list_model s) (_auto_continue s) (listView s) ev.

(** ** State and exceptions *)

Definition M (A : Type) : Type := ListLayout → result A * ListLayout.

Definition ret {A} (a : A) : M A := λ s, (Ok a, s).
Definition raise {A} (e : exn) : M A := λ s, (Raise e, s).
Definition bind {A B} (m : M A) (f : A → M B) : M B :=
  λ s, match m s with
       | (Ok a, s') => f a s'
       | (Raise e, s') => (Raise e, s')
       end.

(** [try: m except (handled): h] *)
Definition try_except {A} (m : M A) (handled : list exn) (h : M A) : M A :=
  λ s, match m s with
       | (Ok a, s') => (Ok a, s')
       | (Raise e, s') =>
           if bool_decide (e ∈ handled) then h s' else (Raise e, s')
       end.

Definition gets {A} (f : ListLayout → A) : M A := λ s, (Ok (f s), s).
Definition modify (f : ListLayout → ListLayout) : M unit := λ s, (Ok tt, f s).

Declare Scope layout_scope.
Delimit Scope layout_scope with layout.
Notation "x <- m ;; k" := (bind m (λ x, k))
  (at level 100, m at next level, right associativity) : layout_scope.
Notation "m ;; k" := (bind m (λ _, k))
  (at level 100, right associativity) : layout_scope.
Local Open Scope layout_scope.

(** [for x in l: body x] *)
Fixpoint for_each {A} (l : list A) (body : A → M unit) : M unit :=
  match l with
  | [] => ret tt
  | x :: l' => body x ;; for_each l' body
  end.

(** [range(n)] *)
Definition range (n : Z) : list Z := Z.of_nat <$> seq 0 (Z.to_nat n).

(** Attribute access or a method call on what may be [None]. *)
Definition deref {A} (o : option A) : M A :=
  match o with
  | Some a => ret a
  | None => raise AttributeError
  end.

(** [a + b] where [a] may be [None]. *)
Definition add_int (a : option Z) (b : Z) : M Z :=
  match a with
  | Some a => ret (a + b)
  | None => raise TypeError
  end.

(** ** Collaborators of the layout *)

(** Modelled from the spec: [CueListModel] ([lisp.plugins.list_layout.models])
    is not part of the sources.  [len(model)] is the collection length N. *)
Definition list_model_len : M Z :=
  gets (λ s, Z.of_nat (length (_list_model s))).

(** Modelled from the spec: [CueListModel.item] is not part of the sources;
    "item(index) -> CueRef: fails with IndexError if index out of [0,N)". *)
Definition item (i : Z) : M CueObj :=
  λ s, if bool_decide (0 ≤ i < Z.of_nat (length (_list_model s)))
       then match _list_model s !! Z.to_nat i with
            | Some c => (Ok c, s)
            | None => (Raise IndexError, s)
            end
       else (Raise IndexError, s).

(** [x] brought into [lo, hi]. *)
Definition clamp (lo hi x : Z) : Z := Z.max lo (Z.min hi x).

(** Modelled from the spec: the cursor for a requested position against a
    collection of length [n] is "clamped to [0, N]", and is the sentinel
    "none when N=0". *)
Definition reconcile (n pos : Z) : option Z :=
  if bool_decide (n = 0) then None else Some (clamp 0 n pos).

(** Modelled from the spec: [CueListView.standbyIndex] ([list_view.py]) is
    not part of the sources; the cursor is "an integer in range [0, N] or a
    sentinel none when N=0". *)
Definition standbyIndex : M (option Z) := gets (λ s, standby (listView s)).

(** Modelled from the spec: [CueListView.setStandbyIndex] is not part of the
    sources; "set(index): fails silently (clamps) if index > N; never throws",
    "clamped to [0, N]", "if stepping would exceed N, cursor is set exactly
    to N". *)
Definition setStandbyIndex (i : Z) : M unit :=
  modify (λ s, with_standby (reconcile (Z.of_nat (length (_list_model s))) i) s).

(** Top-level items of the Qt tree widget are named by their row. *)
Abbreviation TreeItem := nat (only parsing).

(** [QTreeWidget.topLevelItemCount] *)
Definition topLevelItemCount : M Z :=
  gets (λ s, Z.of_nat (length (selected (listView s)))).

(** [QTreeWidget.topLevelItem]: [None] out of range. *)
Definition topLevelItem (i : Z) : M (option TreeItem) :=
  gets (λ s, if bool_decide (0 ≤ i < Z.of_nat (length (selected (listView s))))
             then Some (Z.to_nat i) else None).

(** [QTreeWidget.indexOfTopLevelItem] *)
Definition indexOfTopLevelItem (it : TreeItem) : M Z := ret (Z.of_nat it).

(** [item.isSelected()] *)
Definition isSelected (it : option TreeItem) : M bool :=
  it <- deref it ;;
  gets (λ s, default false (selected (listView s) !! it)).

(** [item.setSelected(b)] *)
Definition setSelected (it : option TreeItem) (b : bool) : M unit :=
  it <- deref it ;;
  modify (λ s, with_selected (<[it := b]> (selected (listView s))) s).

(** Rows whose flag is set, first row first. *)
Fixpoint selected_rows (row : nat) (sel : list bool) : list TreeItem :=
  match sel with
  | [] => []
  | b :: sel' =>
      (if b then [row] else []) ++ selected_rows (S row) sel'
  end.

(** The order in which the tree widget lists its selected items.  Qt lists
    them selection range by selection range, in the order the ranges were
    selected, which the flags do not tell: the order belongs to the widget,
    and the layout is read under one. *)
Class SelectionOrder := selection_order : list bool → list TreeItem.

(** A selection order lists every selected row once, and no other row. *)
Definition lists_selected_rows (o : SelectionOrder) : Prop :=
  ∀ sel : list bool, selection_order sel ≡ₚ selected_rows 0 sel.

(** The rows selected from the first to the last, as a loop over the rows
    selects them; the order of a statement that names no other. *)
#[global] Instance row_order : SelectionOrder := selected_rows 0.

(** [QTreeWidget.selectedItems]: the selected items, in the widget's
    order. *)
Definition selectedItems {o : SelectionOrder} : M (list TreeItem) :=
  gets (λ s, selection_order (selected (listView s))).

(** [cue.execute(action)]: the cue's own work is outside the layout. *)
Definition execute (c : CueObj) (action : CueAction) : M unit :=
  modify (λ s, with_emitted (emitted s ++ [Execute c action]) s).

(** [self.cue_executed.emit(cue)] *)
Definition cue_executed_emit (c : CueObj) : M unit :=
  modify (λ s, with_emitted (emitted s ++ [CueExecuted c]) s).

(** Modelled from the spec: the cue entity is not part of the sources; it
    has "`.index` (int, kept in sync by the collection), `.execute(action)`,
    `.next` completion notification" and no [cue] member, and the layout
    itself calls [execute] on the items of the list model.  Reading
    [c.cue] therefore raises [AttributeError]. *)
Definition cue_attr (c : CueObj) : M CueObj := raise AttributeError.

(** ** [ListLayout] *)

(** [def standby_index(self)] *)
Definition standby_index : M (option Z) := standbyIndex.

(** [def set_standby_index(self, index)] *)
Definition set_standby_index (i : Z) : M unit := setStandbyIndex i.

(** [def cue_at(self, index)] *)
Definition cue_at (i : Z) : M CueObj := item i.

(** Modelled from the spec: [standby_cue] is inherited from the base layout
    of [lisp.layout], which is not part of the sources; "Read standby cue via
    cursor; if cursor is NONE or collection empty" there is none, and a cursor
    one past the end means "nothing on standby". *)
Definition standby_cue : M (option CueObj) :=
  i <- standby_index ;;
  match i with
  | None => ret None
  | Some p => try_except (c <- cue_at p ;; ret (Some c)) [IndexError] (ret None)
  end.

(** [def go(self, action=CueAction.Default, advance=1)] *)
Definition go (action : CueAction) (advance : Z) : M unit :=
  standby_cue_ <- standby_cue ;;
  match standby_cue_ with
  | Some c =>
      execute c action ;;
      cue_executed_emit c ;;
      auto <- gets _auto_continue ;;
      if auto : bool then
        i <- standby_index ;;
        i <- add_int i advance ;;
        set_standby_index i
      else ret tt
  | None => ret tt
  end.

(** [def cues(self, cue_type=Cue)]: [yield from self._list_model]. *)
Definition cues (cue_type : CueType) : M (list CueObj) := gets _list_model.

(** The loop of [selected_cues]: for each selected item, the cue of the list
    model at the item's row. *)
Fixpoint selected_cues_from (its : list TreeItem) : M (list CueObj) :=
  match its with
  | [] => ret []
  | it :: its' =>
      i <- indexOfTopLevelItem it ;;
      c <- item i ;;
      rest <- selected_cues_from its' ;;
      ret (c :: rest)
  end.

(** [def selected_cues(self, cue_type=Cue)]: the cues the generator yields
    when it is run to its end on the current layout. *)
Definition selected_cues {o : SelectionOrder} (cue_type : CueType)
  : M (list CueObj) :=
  its <- selectedItems ;;
  selected_cues_from its.

(** [def select_all(self, cue_type=Cue)] *)
Definition select_all (cue_type : CueType) : M unit :=
  n <- topLevelItemCount ;;
  for_each (range n) (λ i,
    c <- item i ;;
    if isinstance c cue_type then
      it <- topLevelItem i ;;
      setSelected it true
    else ret tt).

(** [def deselect_all(self, cue_type=Cue)] *)
Definition deselect_all (cue_type : CueType) : M unit :=
  n <- topLevelItemCount ;;
  for_each (range n) (λ i,
    c <- item i ;;
    if isinstance c cue_type then
      it <- topLevelItem i ;;
      setSelected it false
    else ret tt).

(** [def invert_selection(self)] *)
Definition invert_selection : M unit :=
  n <- topLevelItemCount ;;
  for_each (range n) (λ i,
    it <- topLevelItem i ;;
    sel <- isSelected it ;;
    setSelected it (negb sel)).

(** [def _set_auto_next(self, enable)] *)
Definition _set_auto_next (enable : bool) : M unit :=
  modify (λ s, mkLayout (_list_model s) enable (listView s) (emitted s)).

(** [def __cue_next(self, cue)]: the body of the [try] block. *)
Definition __cue_next_body (cue : CueObj) : M unit :=
  let next_index := index cue + 1 in
  n <- list_model_len ;;
  if bool_decide (next_index < n) then
    next_cue <- item next_index ;;
    next_cue_cue <- cue_attr next_cue ;;
    execute next_cue_cue Default ;;
    auto <- gets _auto_continue ;;
    if auto : bool then
      standby_cue_ <- standby_cue ;;
      if cue_is next_cue standby_cue_ then
        set_standby_index (next_index + 1)
      else ret tt
    else ret tt
  else ret tt.

Definition __cue_next (cue : CueObj) : M unit :=
  try_except (__cue_next_body cue) [IndexError; KeyError] (ret tt).

(** ** Structural changes of the collection *)

(** Modelled from the spec: "indices are contiguous integers 0..N-1 at all
    times (reindex on any structural change)". *)
Definition reindex (l : list CueObj) : list CueObj :=
  imap (λ i c, mkCue (cue_id c) (Z.of_nat i) (cue_class c)) l.

(** Modelled from the spec: the cursor after a structural change is "always
    valid against the current collection length"; where there was none it
    starts from the initial 0. *)
Definition clamp_standby (n : Z) (cur : option Z) : option Z :=
  reconcile n (default 0 cur).

(** Modelled from the spec: the collection's [insert] is not part of the
    sources; "insert(cueRef, at) ...: reindex all subsequent items", with the
    cursor clamped in the same step.  The new row is not selected. *)
Definition insert_cue (c : CueObj) (pos : Z) : M unit :=
  modify (λ s,
    let k := Z.to_nat pos in
    let l := reindex (take k (_list_model s) ++ c :: drop k (_list_model s)) in
    let sel := take k (selected (listView s)) ++
               false :: drop k (selected (listView s)) in
    mkLayout l (_auto_continue s)
      (mkView sel (clamp_standby (Z.of_nat (length l)) (standby (listView s))))
      (emitted s)).

(** Modelled from the spec: "index_of(cueRef) -> int: fails with
    NotFoundError if absent". *)
Definition index_of (c : CueObj) : M Z :=
  l <- gets _list_model ;;
  match list_find (λ x, cue_id x = cue_id c) l with
  | Some (k, _) => ret (Z.of_nat k)
  | None => raise NotFoundError
  end.

(** Modelled from the spec: the collection's [remove] is not part of the
    sources; it reindexes, prunes the removed row from the selection and
    clamps the cursor: "On collection shrink such that pos > N, clamp to N". *)
Definition remove_cue (c : CueObj) : M unit :=
  i <- index_of c ;;
  modify (λ s,
    let k := Z.to_nat i in
    let l := reindex (delete k (_list_model s)) in
    mkLayout l (_auto_continue s)
      (mkView (delete k (selected (listView s)))
         (clamp_standby (Z.of_nat (length l)) (standby (listView s))))
      (emitted s)).

(** Modelled from the spec: the widgets that [__init__] builds are not part
    of the sources; at construction the cursor is in its "Initial state: 0
    (or NONE if empty at construction)", nothing is selected and nothing has
    been emitted. *)
Definition new_layout (cue_model : list CueObj) (autoContinue : bool)
  : ListLayout :=
  let l := reindex cue_model in
  mkLayout l autoContinue
    (mkView (replicate (length l) false) (reconcile (Z.of_nat (length l)) 0))
    [].

(** The entry points that change the collection or move the cursor. *)
Inductive Op :=
| OpInsert (c : CueObj) (pos : Z)
| OpRemove (c : CueObj)
| OpSetStandby (i : Z)
| OpGo (action : CueAction) (advance : Z)
| OpCueNext (c : CueObj).

Definition perform (o : Op) : M unit :=
  match o with
  | OpInsert c pos => insert_cue c pos
  | OpRemove c => remove_cue c
  | OpSetStandby i => set_standby_index i
  | OpGo action advance => go action advance
  | OpCueNext c => __cue_next c
  end.

(** The layout after each operation of a sequence; an exception ends the
    operation that raised it, not the session. *)
Fixpoint run (ops : list Op) (s : ListLayout) : list ListLayout :=
  match ops with
  | [] => []
  | o :: ops' => let s' := snd (perform o s) in s' :: run ops' s'
  end.

(** The cursor is valid against the current collection length. *)
Definition cursor_ok (s : ListLayout) : Prop :=
  match standby (listView s) with
  | None => length (_list_model s) = 0%nat
  | Some p => length (_list_model s) ≠ 0%nat ∧
              0 ≤ p ≤ Z.of_nat (length (_list_model s))
  end.

(** The list view shows one row per cue of the model. *)
Definition rows_match (s : ListLayout) : Prop :=
  length (selected (listView s)) = length (_list_model s).

(** ** [CueLayout]: bulk edit *)

Module CueLayout.
Section Edit.

(** The settings a dialog hands to [on_apply]. *)
Variable Settings : Type.

(** What [edit_selected_cues] does to the user interface and to the
    actions handler. *)
Inductive UiEvent :=
| CueSettings (cue_class : option CueType)  (* the dialog, built then run *)
| MultiConfigureAction (settings : Settings) (cues : list CueObj).
                                            (* built then do_action() *)

(** Modelled from the spec: [greatest_common_superclass]
    ([lisp.utils.util]) is not part of the sources; "the most specific
    common supertype across the current selection": the class the cues
    share, the root class when they differ, none without a cue. *)
Definition greatest_common_superclass (instances : list CueObj)
  : option CueType :=
  match instances with
  | [] => None
  | x :: rest =>
      Some (if forallb (λ y, bool_decide (cue_class y = cue_class x)) rest
            then cue_class x else Cue)
  end.

(** [def edit_selected_cues(self)], given what the abstract
    [get_selected_cues] returns and the settings applied in the dialog
    while it runs ([on_apply] fires once for each). *)
Definition edit_selected_cues (get_selected_cues : list CueObj)
    (applied : list Settings) : list UiEvent :=
  let cues := get_selected_cues in
  if bool_decide (cues ≠ []) then
    CueSettings (greatest_common_superclass cues) ::
      ((λ settings, MultiConfigureAction settings cues) <$> applied)
  else [].

End Edit.

(** [QRect]: a rectangle by its top-left corner and its size. *)
Record QRect := mkRect { rx : Z; ry : Z; rwidth : Z; rheight : Z }.

(** [QRect.bottom()] and [QRect.right()] are the last row and column the
    rectangle covers. *)
Definition bottom (r : QRect) : Z := ry r + rheight r - 1.
Definition right (r : QRect) : Z := rx r + rwidth r - 1.

(** [menu.move(x, y)] *)
Definition move (x y : Z) (menu : QRect) : QRect :=
  mkRect x y (rwidth menu) (rheight menu).

(** What the cue-menu registry hands out for a cue class. *)
Inductive RegistryItem :=
| QAction (name : nat)
| QMenu (name : nat)
| OtherItem (name : nat).

(** An entry added to the menu. *)
Inductive MenuEntry :=
| addAction (name : nat)
| addMenu (name : nat).

(** [def show_context_menu(self, position)]: the entries of the menu and
    the place it ends at, given what [cm_registry.filter(cue_class)]
    returns, the size the shown menu takes, and the desktop's available
    geometry.  A popup has no window frame: [menu.x()], [menu.y()] and
    [menu.geometry()] agree on its top-left corner. *)
Definition show_context_menu (registry : list RegistryItem)
    (position : Z * Z) (size : Z * Z) (desktop : QRect)
  : list MenuEntry * QRect :=
  let entries :=
    omap (λ item, match item with
                  | QAction a => Some (addAction a)
                  | QMenu m => Some (addMenu m)
                  | OtherItem _ => None
                  end) registry in
  let menu := mkRect position.1 position.2 size.1 size.2 in
  (* Adjust the menu position *)
  let menu_rect := menu in
  let menu :=
    if bool_decide (bottom menu_rect > bottom desktop)
    then move (rx menu) (ry menu - rheight menu) menu else menu in
  let menu :=
    if bool_decide (right menu_rect > right desktop)
    then move (rx menu - rwidth menu) (ry menu) menu else menu in
  (entries, menu).

End CueLayout.

(** ** [ListLayout]: slots of the GUI *)

(** [def __go_slot(self)] *)
Definition __go_slot : M unit := go Default 1.

(** [n] clicks on the GO button, one after the other. *)
Fixpoint go_clicks (n : nat) : M unit :=
  match n with
  | O => ret tt
  | S n' => __go_slot ;; go_clicks n'
  end.

(** Qt's codes for the keyboard modifiers of an event
    ([Qt.KeyboardModifier]), for the modifiers of a key sequence
    ([Qt.Modifier]) and for the space bar. *)
Definition Qt_ShiftModifier : Z := 0x02000000.
Definition Qt_ControlModifier : Z := 0x04000000.
Definition Qt_AltModifier : Z := 0x08000000.
Definition Qt_MetaModifier : Z := 0x10000000.
Definition Qt_SHIFT : Z := 0x02000000.
Definition Qt_CTRL : Z := 0x04000000.
Definition Qt_ALT : Z := 0x08000000.
Definition Qt_META : Z := 0x10000000.
Definition Qt_Key_Space : Z := 0x20.

(** A [QKeyEvent], as the handler reads it. *)
Record QKeyEvent := mkKeyEvent {
  key : Z;
  modifiers : Z;
  isAutoRepeat : bool
}.

(** Truth of a Python integer. *)
Definition truthy (n : Z) : bool := bool_decide (n ≠ 0).

(** [_key_pressed]: the key code with the modifiers added to it. *)
Definition combined_keys (event : QKeyEvent) : Z :=
  let keys := key event in
  let modifiers := modifiers event in
  let keys := if truthy (Z.land modifiers Qt_ShiftModifier)
              then keys + Qt_SHIFT else keys in
  let keys := if truthy (Z.land modifiers Qt_ControlModifier)
              then keys + Qt_CTRL else keys in
  let keys := if truthy (Z.land modifiers Qt_AltModifier)
              then keys + Qt_ALT else keys in
  let keys := if truthy (Z.land modifiers Qt_MetaModifier)
              then keys + Qt_META else keys in
  keys.

(** [def _key_pressed(self, event)].  [in_go_key_sequence keys] is
    [QKeySequence(keys) in self._go_key_sequence]; the result tells whether
    the event ends accepted, and the cue handed to [edit_cue], if any. *)
Definition _key_pressed (in_go_key_sequence : Z → bool) (event : QKeyEvent)
  : M (bool * option CueObj) :=
  (* event.ignore() *)
  if negb (isAutoRepeat event) then
    let keys := combined_keys event in
    if in_go_key_sequence keys then
      (* event.accept() *)
      go Default 1 ;;
      ret (true, None)
    else if bool_decide (key event = Qt_Key_Space) then
      if bool_decide (modifiers event = Qt_ShiftModifier) then
        (* event.accept() *)
        cue <- standby_cue ;;
        match cue with
        | Some c => ret (true, Some c)
        | None => ret (true, None)
        end
      else ret (false, None)
    else ret (false, None)
  else ret (false, None).

(** [def _double_clicked(self)]: the cue handed to [edit_cue], if any. *)
Definition _double_clicked : M (option CueObj) :=
  cue <- standby_cue ;;
  match cue with
  | Some c => ret (Some c)
  | None => ret None
  end.

(** [CueListView.ExtendedSelection] and [CueListView.NoSelection]. *)
Inductive SelectionMode := ExtendedSelection | NoSelection.

(** [def _set_selection_mode(self, enable)]: the mode handed to
    [setSelectionMode]. *)
Definition _set_selection_mode (enable : bool) : M SelectionMode :=
  if enable then ret ExtendedSelection
  else (deselect_all Cue ;; ret NoSelection).

(** The menu a context event ends with. *)
Inductive ContextMenu :=
| show_cue_context_menu (cues : list CueObj)
| show_context_menu.

(** [def _context_invoked(self, event)].  [itemAt] is the item under
    [event.pos()], if any; [indexAt] is the row of [indexAt(event.pos())]
    when that index is valid. *)
Definition _context_invoked {o : SelectionOrder} (itemAt : option TreeItem)
    (indexAt : option Z) : M (option ContextMenu) :=
  match itemAt with
  | Some _ =>
      cues <- selected_cues Cue ;;
      match cues with
      | [] =>
          match indexAt with
          | Some row =>
              c <- item row ;;
              ret (Some (show_cue_context_menu (cues ++ [c])))
          | None => ret None
          end
      | _ => ret (Some (show_cue_context_menu cues))
      end
  | None => ret (Some show_context_menu)
  end.




(** ** Layouts after an operation *)

(** The layout [go] leaves behind when cue [c] is on standby at [p]. *)
Definition after_go (c : CueObj) (action : CueAction) (p advance : Z)
    (s : ListLayout) : ListLayout :=
  let s1 := with_emitted (emitted s ++ [Execute c action; CueExecuted c]) s in
  if _auto_continue s
  then with_standby
         (reconcile (Z.of_nat (length (_list_model s))) (p + advance)) s1
  else s1.

(** The cue under the cursor, if the cursor is on a row of the collection. *)
Definition cue_on_standby (s : ListLayout) : option CueObj :=
  match standby (listView s) with
  | Some p =>
      if bool_decide (0 ≤ p < Z.of_nat (length (_list_model s)))
      then _list_model s !! Z.to_nat p else None
  | None => None
  end.

(** The cues of the rows whose flag is set, in collection order. *)
Fixpoint chosen (l : list CueObj) (sel : list bool) : list CueObj :=
  match l, sel with
  | c :: l', b :: sel' => if b then c :: chosen l' sel' else chosen l' sel'
  | _, _ => []
  end.

(** ** The layout of the examples: cues A, B and C *)

Definition cueA : CueObj := mkCue 10 0 AudioCue.
Definition cueB : CueObj := mkCue 11 1 LightCue.
Definition cueC : CueObj := mkCue 12 2 ActionCue.

Definition abc_layout (autoContinue : bool) (cursor : option Z)
    (sel : list bool) : ListLayout :=
  mkLayout [cueA; cueB; cueC] autoContinue (mkView sel cursor) [].

(** The rows selected from the last to the first: an order the widget has
    after C, then B, then A were selected one by one. *)
Definition reverse_order : SelectionOrder :=
  λ sel, reverse (selected_rows 0 sel).

(** * Properties *)

(** ** The monad and the collaborators *)

Ltac unfold_m :=
  unfold bind, ret, raise, gets, modify, try_except, deref, add_int in *.

Ltac unfold_layout :=
  unfold standby_cue, standby_index, set_standby_index, cue_at, standbyIndex,
    setStandbyIndex, list_model_len, execute, cue_executed_emit, cue_attr,
    topLevelItemCount, topLevelItem, isSelected, setSelected,
    indexOfTopLevelItem, selectedItems in *.

Lemma clamp_range lo hi x : lo ≤ hi → lo ≤ clamp lo hi x ≤ hi.
Proof. unfold clamp. lia. Qed.

Lemma clamp_id lo hi x : lo ≤ x ≤ hi → clamp lo hi x = x.
Proof. unfold clamp. lia. Qed.

Lemma item_Ok (i : Z) (s : ListLayout) (c : CueObj) :
  0 ≤ i → _list_model s !! Z.to_nat i = Some c → item i s = (Ok c, s).
Proof.
  intros Hi Hc. unfold item.
  apply lookup_lt_Some in Hc as Hlt.
  rewrite bool_decide_eq_true_2 by lia. by rewrite Hc.
Qed.

Lemma item_inv (i : Z) (s : ListLayout) :
  (∃ c, 0 ≤ i < Z.of_nat (length (_list_model s)) ∧
        _list_model s !! Z.to_nat i = Some c ∧ item i s = (Ok c, s)) ∨
  (¬ 0 ≤ i < Z.of_nat (length (_list_model s)) ∧
   item i s = (Raise IndexError, s)).
Proof.
  unfold item. case_bool_decide as Hi.
  - destruct (_list_model s !! Z.to_nat i) as [c|] eqn:Hc.
    + left. eauto.
    + apply lookup_ge_None in Hc. lia.
  - by right.
Qed.

(** The standby cue is read without any effect, and never raises. *)
Lemma standby_cue_pure (s : ListLayout) : ∃ o, standby_cue s = (Ok o, s).
Proof.
  unfold_layout. unfold_m. destruct (standby (listView s)) as [p|]; [|eauto].
  destruct (item_inv p s) as [(c & _ & _ & ->)|[_ ->]]; simpl; eauto.
Qed.

Lemma standby_cue_Some (s : ListLayout) (c : CueObj) :
  fst (standby_cue s) = Ok (Some c) ↔
  ∃ p, standby (listView s) = Some p ∧
       0 ≤ p < Z.of_nat (length (_list_model s)) ∧
       _list_model s !! Z.to_nat p = Some c.
Proof.
  unfold_layout. unfold_m. destruct (standby (listView s)) as [p|].
  - destruct (item_inv p s) as [(c' & Hp & Hc & ->)|[Hp ->]]; simpl.
    + split.
      * intros [= ->]. eauto.
      * intros (p' & [= <-] & _ & Hc'). congruence.
    + split; [done|]. intros (p' & [= <-] & Hp' & _). done.
  - simpl. split; [done|]. by intros (p' & ? & _).
Qed.

Lemma standby_cue_None (s : ListLayout) :
  length (_list_model s) = 0%nat ∨ standby (listView s) = None ∨
  standby (listView s) = Some (Z.of_nat (length (_list_model s))) ∨
  fst (standby_cue s) = Ok None →
  standby_cue s = (Ok None, s).
Proof.
  intros H. destruct (standby_cue_pure s) as [o Ho].
  destruct H as [H|[H|[H|H]]]; [| | |by rewrite Ho in H |- *; injection H as ->].
  - revert Ho. unfold_layout. unfold_m.
    destruct (standby (listView s)) as [p|]; [|done].
    by destruct (item_inv p s) as [(c & Hp & _)|[_ ->]]; [lia|].
  - revert Ho. unfold_layout. unfold_m. by rewrite H.
  - revert Ho. unfold_layout. unfold_m. rewrite H.
    by destruct (item_inv (Z.of_nat (length (_list_model s))) s)
      as [(c & Hp & _)|[_ ->]]; [lia|].
Qed.

(** ** The go protocol *)

Lemma go_on_standby (s : ListLayout) (c : CueObj) (p : Z)
    (action : CueAction) (advance : Z) :
  standby (listView s) = Some p →
  0 ≤ p < Z.of_nat (length (_list_model s)) →
  _list_model s !! Z.to_nat p = Some c →
  go action advance s = (Ok tt, after_go c action p advance s).
Proof.
  intros Hp Hrange Hlook. unfold go, after_go. unfold bind at 1.
  assert (standby_cue s = (Ok (Some c), s)) as ->.
  { destruct (standby_cue_pure s) as [o Ho].
    pose proof (proj2 (standby_cue_Some s c)) as H.
    rewrite Ho in H |- *. simpl in H. rewrite H; eauto. }
  destruct s as [l auto [sel cur] ev]. simpl in *. subst cur.
  unfold_layout. unfold_m. simpl.
  destruct auto; simpl; by rewrite <- (assoc (++)).
Qed.

(** C1: with a cue on standby, [go(action, advance)] executes that cue with
    the given action, then emits cue-executed carrying it, and nothing else;
    the cursor is advanced by the step (clamped into [0, N]) when
    auto-continue is enabled and left alone otherwise, so that for a
    positive step the cursor moves if and only if auto-continue is enabled. *)
Theorem go_executes_standby (s : ListLayout) (c : CueObj)
    (action : CueAction) (advance : Z) :
  fst (standby_cue s) = Ok (Some c) →
  ∃ p s',
    standby (listView s) = Some p ∧
    go action advance s = (Ok tt, s') ∧
    emitted s' = emitted s ++ [Execute c action; CueExecuted c] ∧
    _list_model s' = _list_model s ∧
    _auto_continue s' = _auto_continue s ∧
    selected (listView s') = selected (listView s) ∧
    standby (listView s') =
      (if _auto_continue s
       then Some (clamp 0 (Z.of_nat (length (_list_model s))) (p + advance))
       else Some p) ∧
    (0 < advance →
     standby (listView s') ≠ standby (listView s) ↔ _auto_continue s = true).
Proof.
  intros Hc. apply standby_cue_Some in Hc as (p & Hp & Hrange & Hlook).
  exists p, (after_go c action p advance s).
  split; [done|]. split; [by apply go_on_standby|].
  assert (Hn : Z.of_nat (length (_list_model s)) ≠ 0) by lia.
  unfold after_go, reconcile. rewrite bool_decide_eq_false_2 by done.
  rewrite Hp.
  destruct (_auto_continue s) eqn:Hauto; simpl; repeat split; try done.
  intros _ [= ?]. unfold clamp in *. lia.
Qed.

Lemma go_executes_standby_witness :
  (∃ s', go Default 1 (abc_layout true (Some 0) [false; false; false])
           = (Ok tt, s') ∧
         emitted s' = [Execute cueA Default; CueExecuted cueA] ∧
         standby (listView s') = Some 1) ∧
  (∃ s', go Default 1 (abc_layout false (Some 0) [false; false; false])
           = (Ok tt, s') ∧
         emitted s' = [Execute cueA Default; CueExecuted cueA] ∧
         standby (listView s') = Some 0).
Proof.
  split.
  - destruct (go_executes_standby
                (abc_layout true (Some 0) [false; false; false])
                cueA Default 1 eq_refl)
      as (p & s' & [= <-] & Hgo & Hev & _ & _ & _ & Hcur & _).
    exists s'. done.
  - destruct (go_executes_standby
                (abc_layout false (Some 0) [false; false; false])
                cueA Default 1 eq_refl)
      as (p & s' & [= <-] & Hgo & Hev & _ & _ & _ & Hcur & _).
    exists s'. done.
Defined.

(** C2: when the collection is empty, or the cursor is the sentinel, or the
    cursor is one past the end of a collection that has cues, or in any
    other way no cue is on standby, [go] is a no-op: it returns normally and
    leaves the layout as it was, so no cue is executed, nothing is emitted
    and the cursor is unchanged. *)
Theorem go_noop_without_standby (s : ListLayout) (action : CueAction)
    (advance : Z) :
  length (_list_model s) = 0%nat ∨ standby (listView s) = None ∨
  standby (listView s) = Some (Z.of_nat (length (_list_model s))) ∨
  fst (standby_cue s) = Ok None →
  go action advance s = (Ok tt, s).
Proof.
  intros H. unfold go, bind. by rewrite (standby_cue_None s H).
Qed.

Lemma go_noop_without_standby_witness :
  go Default 1 (mkLayout [] true (mkView [] None) []) =
    (Ok tt, mkLayout [] true (mkView [] None) []) ∧
  go Default 1 (mkLayout [] true (mkView [] (Some 0)) []) =
    (Ok tt, mkLayout [] true (mkView [] (Some 0)) []) ∧
  go Default 1 (abc_layout true (Some 3) [false; false; false]) =
    (Ok tt, abc_layout true (Some 3) [false; false; false]) ∧
  go Default 1 (abc_layout true (Some (-1)) [false; false; false]) =
    (Ok tt, abc_layout true (Some (-1)) [false; false; false]).
Proof.
  split; [|split; [|split]].
  - apply go_noop_without_standby. right. by left.
  - apply go_noop_without_standby. by left.
  - apply go_noop_without_standby. right. right. by left.
  - apply go_noop_without_standby. right. right. by right.
Defined.

(** ** The chain reaction *)

Lemma standby_cue_eq (s : ListLayout) :
  standby_cue s = (Ok (cue_on_standby s), s).
Proof.
  unfold cue_on_standby. unfold_layout. unfold_m.
  destruct (standby (listView s)) as [p|]; [|done].
  destruct (item_inv p s) as [(c & Hp & Hc & ->)|[Hp ->]]; simpl.
  - by rewrite bool_decide_eq_true_2, Hc.
  - by rewrite bool_decide_eq_false_2.
Qed.

Lemma cue_on_standby_with_emitted (ev : list Event) (s : ListLayout) :
  cue_on_standby (with_emitted ev s) = cue_on_standby s.
Proof. done. Qed.

Lemma cue_next_in_bounds (s : ListLayout) (cue : CueObj) :
  0 ≤ index cue + 1 < Z.of_nat (length (_list_model s)) →
  __cue_next cue s = (Raise AttributeError, s).
Proof.
  intros Hrange.
  unfold __cue_next, __cue_next_body, try_except.
  unfold list_model_len, gets. unfold bind at 1.
  rewrite bool_decide_eq_true_2 by lia.
  unfold bind at 1.
  by destruct (item_inv (index cue + 1) s) as [(c & _ & _ & ->)|[? _]].
Qed.

Lemma cue_next_out_of_bounds (s : ListLayout) (cue : CueObj) :
  ¬ 0 ≤ index cue + 1 < Z.of_nat (length (_list_model s)) →
  __cue_next cue s = (Ok tt, s).
Proof.
  intros Hrange.
  unfold __cue_next, __cue_next_body, try_except.
  unfold list_model_len, gets. unfold bind at 1.
  case_bool_decide as Hlt; [|done].
  unfold bind at 1.
  destruct (item_inv (index cue + 1) s) as [(c & Hp & _)|[_ ->]]; done.
Qed.


(** C3 fails on the code: when index + 1 is within bounds the handler does
    fetch the cue at index + 1, but then reads its [cue] member, which a cue
    does not have: [AttributeError] is raised, it is not one of the
    exceptions the handler takes, no cue is executed and the cursor is where
    it was.  So it is on [A, B, C] when A completes. *)
Theorem cue_next_raises_on_following :
  (∀ (s : ListLayout) (cue : CueObj),
     0 ≤ index cue + 1 < Z.of_nat (length (_list_model s)) →
     ∃ next_cue,
       fst (cue_at (index cue + 1) s) = Ok next_cue ∧
       __cue_next cue s = (Raise AttributeError, s)) ∧
  fst (cue_at (index cueA + 1)
         (abc_layout true (Some 1) [false; false; false])) = Ok cueB ∧
  __cue_next cueA (abc_layout true (Some 1) [false; false; false]) =
    (Raise AttributeError, abc_layout true (Some 1) [false; false; false]).
Proof.
  split; [|done]. intros s cue Hrange.
  destruct (item_inv (index cue + 1) s) as [(c & _ & _ & Hitem)|[? _]];
    [|done].
  exists c. unfold cue_at. rewrite Hitem.
  split; [done|by apply cue_next_in_bounds].
Qed.




(** C5 as stated fails: with the cursor on B, the completion of B leaves the
    cursor on 1; it is not advanced to 3. *)
Lemma cue_next_cursor_on_B_stays :
  let s' := snd (__cue_next cueB
                   (abc_layout true (Some 1) [false; false; false])) in
  standby (listView s') = Some 1 ∧
  standby (listView s') ≠ Some 3.
Proof. done. Qed.

(** C5, amended: on [A, B, C] with the cursor on 1 and auto-continue
    enabled, when B (index 1) completes, the cue the handler fetches to
    trigger is C (index 2); the standby cue is B, so C is not the standby
    cue, and the cursor is not advanced: it stays on 1, and the collection
    and the selection are as before. *)
Theorem cue_next_cursor_on_B_not_advanced :
  let s := abc_layout true (Some 1) [false; false; false] in
  fst (cue_at (index cueB + 1) s) = Ok cueC ∧
  fst (standby_cue s) = Ok (Some cueB) ∧
  cue_is cueC (Some cueB) = false ∧
  standby (listView (snd (__cue_next cueB s))) = Some 1 ∧
  _list_model (snd (__cue_next cueB s)) = [cueA; cueB; cueC] ∧
  selected (listView (snd (__cue_next cueB s))) = [false; false; false].
Proof. done. Qed.

(** ** Selection *)

Lemma with_selected_id (s : ListLayout) :
  with_selected (selected (listView s)) s = s.
Proof. by destruct s as [l auto [sel cur] ev]. Qed.

Lemma with_selected_twice (x y : list bool) (s : ListLayout) :
  with_selected x (with_selected y s) = with_selected x s.
Proof. done. Qed.

Lemma fmap_negb_twice (l : list bool) : negb <$> (negb <$> l) = l.
Proof.
  induction l as [|b l IH]; [done|].
  by rewrite !fmap_cons, IH, negb_involutive.
Qed.

(** The loop of [invert_selection], started at row [k] with [m] rows to go:
    the rows before [k] are left as they are, the others are flipped. *)
Lemma invert_loop (m : nat) : ∀ (k : nat) (s : ListLayout),
  (k + m)%nat = length (selected (listView s)) →
  for_each (Z.of_nat <$> seq k m)
    (λ i, it <- topLevelItem i ;;
          sel <- isSelected it ;;
          setSelected it (negb sel)) s =
  (Ok tt, with_selected (take k (selected (listView s)) ++
                         (negb <$> drop k (selected (listView s)))) s).
Proof.
  set (body := λ i : Z, _).
  assert (Hbody : ∀ (k : nat) (s : ListLayout) (b : bool),
            selected (listView s) !! k = Some b →
            body (Z.of_nat k) s =
              (Ok tt, with_selected (<[k := negb b]> (selected (listView s))) s)).
  { intros k s b Hb. apply lookup_lt_Some in Hb as Hlt.
    unfold body, topLevelItem, isSelected, setSelected.
    unfold_m. rewrite bool_decide_eq_true_2 by lia.
    rewrite Nat2Z.id. simpl. by rewrite Hb. }
  clearbody body.
  induction m as [|m IH]; intros k s Hlen; simpl.
  - rewrite take_ge, drop_ge by lia. simpl. rewrite (right_id [] (++)).
    by rewrite with_selected_id.
  - destruct (lookup_lt_is_Some_2 (selected (listView s)) k) as [b Hb];
      [lia|].
    unfold bind at 1. rewrite (Hbody k s b Hb).
    rewrite IH by (simpl; rewrite length_insert; lia).
    simpl selected. rewrite with_selected_twice. do 2 f_equal.
    rewrite (take_S_r _ _ (negb b))
      by (apply list_lookup_insert_eq; lia).
    rewrite take_insert_ge, drop_insert_lt by lia.
    rewrite (drop_S _ _ _ Hb). simpl. by rewrite <- (assoc (++)).
Qed.

Lemma invert_selection_eq (s : ListLayout) :
  invert_selection s =
    (Ok tt, with_selected (negb <$> selected (listView s)) s).
Proof.
  unfold invert_selection, topLevelItemCount, gets, range.
  unfold bind at 1. rewrite Nat2Z.id.
  rewrite invert_loop by done. by rewrite take_0, drop_0.
Qed.

(** C8: [invert_selection()] flips the selected flag of every row of the
    collection, whatever the classes of the cues, and touches nothing else;
    on [A, B, C] with only A selected, exactly B and C end up selected. *)
Theorem invert_selection_flips_all (s : ListLayout) :
  (∃ s', invert_selection s = (Ok tt, s') ∧
         selected (listView s') = negb <$> selected (listView s) ∧
         (∀ (row : nat) (b : bool),
            selected (listView s) !! row = Some b →
            selected (listView s') !! row = Some (negb b)) ∧
         _list_model s' = _list_model s ∧
         standby (listView s') = standby (listView s) ∧
         _auto_continue s' = _auto_continue s ∧
         emitted s' = emitted s) ∧
  (∀ (a b c : CueObj) (auto : bool) (cur : option Z),
     selected (listView (snd (invert_selection
       (mkLayout [a; b; c] auto (mkView [true; false; false] cur) [])))) =
     [false; true; true]).
Proof.
  split.
  - eexists. split; [apply invert_selection_eq|]. simpl.
    repeat split; try done.
    intros row b Hb. by rewrite list_lookup_fmap, Hb.
  - intros a b c auto cur. by rewrite invert_selection_eq.
Qed.

(** C10: [invert_selection()] twice in a row gives back the layout it
    started from: every row has its original selected flag again. *)
Theorem invert_selection_involutive (s : ListLayout) :
  ∃ s1, invert_selection s = (Ok tt, s1) ∧
        invert_selection s1 = (Ok tt, s).
Proof.
  eexists. split; [apply invert_selection_eq|].
  rewrite invert_selection_eq. simpl selected.
  rewrite with_selected_twice. f_equal.
  rewrite fmap_negb_twice. apply with_selected_id.
Qed.

Lemma selected_cues_from_rows (sel : list bool) :
  ∀ (l1 pre : list CueObj) (s : ListLayout),
    _list_model s = pre ++ l1 →
    length sel = length l1 →
    selected_cues_from (selected_rows (length pre) sel) s =
      (Ok (chosen l1 sel), s).
Proof.
  induction sel as [|b sel IH]; intros l1 pre s Hl Hlen.
  - by destruct l1.
  - destruct l1 as [|c l1]; [done|]. simpl in Hlen.
    assert (IH' : selected_cues_from (selected_rows (S (length pre)) sel) s =
                  (Ok (chosen l1 sel), s)).
    { replace (S (length pre)) with (length (pre ++ [c]))
        by (rewrite length_app; simpl; lia).
      apply IH; [|lia]. by rewrite <- (assoc (++)). }
    simpl. destruct b; simpl; [|done].
    unfold indexOfTopLevelItem, ret. unfold bind at 1. unfold bind at 1.
    rewrite (item_Ok _ _ c); [|lia|].
    + unfold bind. by rewrite IH'.
    + rewrite Nat2Z.id, Hl. by rewrite lookup_app_r, Nat.sub_diag by lia.
Qed.

(** When the view shows one row per cue and lists its selected items from
    the first row to the last, [selected_cues] yields the cues of the
    selected rows in collection order, for every [cue_type] alike. *)
Lemma selected_cues_eq (cue_type : CueType) (s : ListLayout) :
  rows_match s →
  selected_cues cue_type s =
    (Ok (chosen (_list_model s) (selected (listView s))), s).
Proof.
  intros Hrows. unfold selected_cues, selectedItems, gets. unfold bind at 1.
  by apply (selected_cues_from_rows _ _ []).
Qed.

(** C7 fails on the code: [cue_type] is accepted and never used.  With A (an
    audio cue) and B (a light cue) selected, [selected_cues(LightCue)] yields
    A as well, which is not a light cue. *)
Theorem selected_cues_ignores_cue_type :
  fst (selected_cues LightCue (abc_layout true (Some 0) [true; true; false]))
    = Ok [cueA; cueB] ∧
  isinstance cueA LightCue = false ∧
  filter (λ c, isinstance c LightCue = true) [cueA; cueB] = [cueB].
Proof. done. Qed.

(** [select_all] and [deselect_all] do filter on the class. *)
Example select_all_filters :
  selected (listView (snd (select_all LightCue
    (abc_layout true (Some 0) [false; false; false])))) =
  [false; true; false].
Proof. done. Qed.

(** ** Bulk edit *)

Lemma edit_selected_cues_opens (Settings : Type) (cues : list CueObj)
    (applied : list Settings) :
  cues ≠ [] →
  ∃ cls rest,
    CueLayout.edit_selected_cues Settings cues applied =
      CueLayout.CueSettings Settings (Some cls) :: rest.
Proof.
  intros Hne. unfold CueLayout.edit_selected_cues.
  rewrite bool_decide_eq_true_2 by done.
  destruct cues as [|c cues]; [done|]. simpl. eauto.
Qed.

(** C9: with nothing selected, [edit_selected_cues()] does nothing: no
    settings dialog is built or run, no configure action is built or handed
    to the actions handler, whatever would have been applied, and the call
    returns normally. *)
Theorem edit_selected_cues_empty_noop (Settings : Type)
    (applied : list Settings) :
  CueLayout.edit_selected_cues Settings [] applied = [].
Proof. done. Qed.

(** ** The cursor invariant *)

Lemma reconcile_ok (n : nat) (pos : Z) :
  match reconcile (Z.of_nat n) pos with
  | None => n = 0%nat
  | Some p => n ≠ 0%nat ∧ 0 ≤ p ≤ Z.of_nat n
  end.
Proof.
  unfold reconcile. case_bool_decide as Hn; [lia|].
  split; [lia|]. apply clamp_range. lia.
Qed.

Lemma cursor_ok_reconciled (s : ListLayout) (pos : Z) :
  standby (listView s) = reconcile (Z.of_nat (length (_list_model s))) pos →
  cursor_ok s.
Proof.
  intros H. unfold cursor_ok. rewrite H. apply reconcile_ok.
Qed.

Lemma cursor_ok_same (s s' : ListLayout) :
  _list_model s' = _list_model s →
  standby (listView s') = standby (listView s) →
  cursor_ok s → cursor_ok s'.
Proof. unfold cursor_ok. by intros -> ->. Qed.

Lemma go_cursor_ok (action : CueAction) (advance : Z) (s : ListLayout) :
  cursor_ok s → cursor_ok (snd (go action advance s)).
Proof.
  intros Hok. destruct (cue_on_standby s) as [c|] eqn:Hc.
  - unfold cue_on_standby in Hc.
    destruct (standby (listView s)) as [p|] eqn:Hp; [|done].
    case_bool_decide as Hrange; [|done].
    rewrite (go_on_standby s c p) by done. unfold after_go. simpl.
    destruct (_auto_continue s).
    + by eapply cursor_ok_reconciled.
    + by eapply cursor_ok_same.
  - unfold go, bind. by rewrite standby_cue_eq, Hc.
Qed.

Lemma cue_next_cursor_ok (cue : CueObj) (s : ListLayout) :
  cursor_ok s → cursor_ok (snd (__cue_next cue s)).
Proof.
  intros Hok.
  destruct (item_inv (index cue + 1) s) as [(c & Hr & Hc & _)|[Hr _]].
  - by rewrite cue_next_in_bounds.
  - by rewrite cue_next_out_of_bounds.
Qed.

Lemma perform_cursor_ok (o : Op) (s : ListLayout) :
  cursor_ok s → cursor_ok (snd (perform o s)).
Proof.
  intros Hok. destruct o as [c pos|c|i|action advance|c]; simpl.
  - by eapply cursor_ok_reconciled.
  - unfold remove_cue, index_of. unfold_m.
    destruct (list_find _ _) as [[k x]|]; simpl; [|done].
    by eapply cursor_ok_reconciled.
  - by eapply cursor_ok_reconciled.
  - by apply go_cursor_ok.
  - by apply cue_next_cursor_ok.
Qed.

Lemma run_cursor_ok (ops : list Op) :
  ∀ s, cursor_ok s → Forall cursor_ok (run ops s).
Proof.
  induction ops as [|o ops IH]; intros s Hok; simpl; [done|].
  pose proof (perform_cursor_ok o s Hok). constructor; auto.
Qed.

(** C6: the cursor is valid at construction and after each operation of any
    sequence of inserts, removes, cursor settings, gos and chain reactions:
    it is a position p with 0 ≤ p ≤ N, and it is the sentinel exactly when
    the collection is empty; setting it to any integer never raises. *)
Theorem standby_cursor_always_valid :
  (∀ (cue_model : list CueObj) (autoContinue : bool),
     cursor_ok (new_layout cue_model autoContinue)) ∧
  (∀ (ops : list Op) (s : ListLayout),
     cursor_ok s → Forall cursor_ok (run ops s)) ∧
  (∀ (i : Z) (s : ListLayout),
     ∃ s', set_standby_index i s = (Ok tt, s') ∧ cursor_ok s') ∧
  (∀ s : ListLayout,
     cursor_ok s →
     (standby (listView s) = None ↔ length (_list_model s) = 0%nat) ∧
     (∀ p, standby (listView s) = Some p →
           0 ≤ p ≤ Z.of_nat (length (_list_model s)))).
Proof.
  split; [|split; [|split]].
  - intros cue_model auto. by eapply cursor_ok_reconciled.
  - intros ops s. apply run_cursor_ok.
  - intros i s. eexists. split; [done|]. by eapply cursor_ok_reconciled.
  - intros s. unfold cursor_ok.
    destruct (standby (listView s)) as [p|]; intros H.
    + split; [split; [done|tauto]|]. intros ? [= <-]. tauto.
    + split; [done|]. by intros.
Qed.

(** A session on [A, B, C]: out-of-range requests are clamped, a go with
    nothing on standby changes nothing, and emptying the collection leaves
    the sentinel until a cue is inserted again. *)
Example cursor_along_a_session :
  (λ s, (standby (listView s), length (_list_model s))) <$>
    run [OpSetStandby 7; OpRemove cueC; OpGo Default 5; OpSetStandby (-4);
         OpGo Default 1; OpCueNext cueA; OpRemove cueA; OpRemove cueB;
         OpRemove cueB; OpInsert cueC 0; OpGo Default (-3)]
      (new_layout [cueA; cueB; cueC] true) =
  [(Some 3, 3%nat); (Some 2, 2%nat); (Some 2, 2%nat); (Some 0, 2%nat);
   (Some 1, 2%nat); (Some 1, 2%nat); (Some 1, 1%nat); (None, 0%nat);
   (None, 0%nat); (Some 0, 1%nat); (Some 0, 1%nat)].
Proof. done. Qed.

Lemma standby_cursor_always_valid_witness :
  Forall cursor_ok
    (run [OpSetStandby 7; OpRemove cueC; OpGo Default 5; OpCueNext cueA;
          OpRemove cueA; OpRemove cueB; OpInsert cueC 0]
       (new_layout [cueA; cueB; cueC] true)).
Proof.
  apply (proj1 (proj2 standby_cursor_always_valid)).
  apply (proj1 standby_cursor_always_valid).
Defined.

(** * Further properties of the layout *)

(** ** Loops *)

Lemma for_each_app {A} (l1 l2 : list A) (body : A → M unit) (s : ListLayout) :
  for_each (l1 ++ l2) body s =
    match for_each l1 body s with
    | (Ok _, s') => for_each l2 body s'
    | (Raise e, s') => (Raise e, s')
    end.
Proof.
  revert s. induction l1 as [|x l1 IH]; intros s; simpl; [done|].
  unfold bind. destruct (body x s) as [[[]|e] s']; [apply IH|done].
Qed.

Lemma for_each_cons {A} (x : A) (l : list A) (body : A → M unit)
    (s : ListLayout) :
  for_each (x :: l) body s =
    match body x s with
    | (Ok _, s') => for_each l body s'
    | (Raise e, s') => (Raise e, s')
    end.
Proof. done. Qed.


(** ** [select_all] and [deselect_all] *)

(** One round of the loop of [select_all] ([b] true) and of [deselect_all]
    ([b] false), on a row that has a cue and an item. *)
Lemma mark_row (b : bool) (cue_type : CueType) (k : nat) (c : CueObj)
    (s : ListLayout) :
  _list_model s !! k = Some c →
  (k < length (selected (listView s)))%nat →
  (c' <- item (Z.of_nat k) ;;
   if isinstance c' cue_type then
     it <- topLevelItem (Z.of_nat k) ;;
     setSelected it b
   else ret tt) s =
  (Ok tt,
   if isinstance c cue_type
   then with_selected (<[k := b]> (selected (listView s))) s else s).
Proof.
  intros Hc Hk. unfold bind at 1.
  rewrite (item_Ok _ _ c) by (rewrite ?Nat2Z.id; done || lia).
  destruct (isinstance c cue_type); [|done].
  unfold topLevelItem, setSelected. unfold_m.
  rewrite bool_decide_eq_true_2 by lia. by rewrite Nat2Z.id.
Qed.

(** The rounds for rows [k, k + m): the rows of that range whose cue is an
    instance of [cue_type] get the flag [b], every other row keeps its own. *)
Lemma mark_loop (b : bool) (cue_type : CueType) (m : nat) :
  ∀ (k : nat) (s : ListLayout),
    (k + m ≤ length (_list_model s))%nat →
    (k + m ≤ length (selected (listView s)))%nat →
    ∃ sel',
      for_each (Z.of_nat <$> seq k m)
        (λ i, c <- item i ;;
              if isinstance c cue_type then
                it <- topLevelItem i ;;
                setSelected it b
              else ret tt) s = (Ok tt, with_selected sel' s) ∧
      length sel' = length (selected (listView s)) ∧
      (∀ row c, (k ≤ row < k + m)%nat → _list_model s !! row = Some c →
                isinstance c cue_type = true → sel' !! row = Some b) ∧
      (∀ row, (¬ (k ≤ row < k + m)%nat ∨
               ∃ c, _list_model s !! row = Some c ∧
                    isinstance c cue_type = false) →
              sel' !! row = selected (listView s) !! row).
Proof.
  induction m as [|m IH]; intros k s Hl Hsel.
  - exists (selected (listView s)). simpl. rewrite with_selected_id.
    repeat split; try done. intros; lia.
  - destruct (lookup_lt_is_Some_2 (_list_model s) k) as [c Hc]; [lia|].
    rewrite <- cons_seq, fmap_cons, for_each_cons.
    rewrite (mark_row b cue_type k c s) by (done || lia).
    destruct (isinstance c cue_type) eqn:Hinst.
    + destruct (IH (S k)
                  (with_selected (<[k := b]> (selected (listView s))) s))
        as (sel' & Hrun & Hlen & Hset & Hkeep);
        [simpl; lia|simpl; rewrite length_insert; lia|].
      simpl in Hlen, Hset, Hkeep. rewrite length_insert in Hlen.
      exists sel'. rewrite Hrun, with_selected_twice.
      split; [done|]. split; [done|]. split.
      * intros row c' Hrow Hc' Hi.
        destruct (decide (row = k)) as [->|Hne].
        -- rewrite Hkeep by (left; lia).
           apply list_lookup_insert_eq. lia.
        -- apply (Hset row c'); [lia|done|done].
      * intros row Hrow.
        assert (row ≠ k) as Hne.
        { intros ->. destruct Hrow as [Hrow|(c' & Hc' & Hi)]; [lia|].
          congruence. }
        rewrite Hkeep.
        -- by apply list_lookup_insert_ne.
        -- destruct Hrow as [Hrow|Hrow]; [left; lia|by right].
    + destruct (IH (S k) s) as (sel' & Hrun & Hlen & Hset & Hkeep); [lia..|].
      exists sel'. split; [done|]. split; [done|]. split.
      * intros row c' Hrow Hc' Hi.
        destruct (decide (row = k)) as [->|Hne]; [congruence|].
        apply (Hset row c'); [lia|done|done].
      * intros row Hrow.
        destruct (decide (row = k)) as [->|Hne].
        -- apply Hkeep. right. eauto.
        -- apply Hkeep. destruct Hrow as [Hrow|Hrow]; [left; lia|by right].
Qed.

Lemma select_all_run (cue_type : CueType) (s : ListLayout) :
  rows_match s →
  ∃ sel',
    select_all cue_type s = (Ok tt, with_selected sel' s) ∧
    length sel' = length (selected (listView s)) ∧
    (∀ row c, _list_model s !! row = Some c →
              isinstance c cue_type = true → sel' !! row = Some true) ∧
    (∀ row c, _list_model s !! row = Some c →
              isinstance c cue_type = false →
              sel' !! row = selected (listView s) !! row).
Proof.
  intros Hrows. unfold rows_match in Hrows.
  unfold select_all, topLevelItemCount, gets, range. unfold bind at 1.
  rewrite Nat2Z.id.
  destruct (mark_loop true cue_type (length (selected (listView s))) 0 s)
    as (sel' & Hrun & Hlen & Hset & Hkeep); [lia..|].
  exists sel'. split; [done|]. split; [done|]. split.
  - intros row c Hc Hi. apply (Hset row c); [|done..].
    apply lookup_lt_Some in Hc. lia.
  - intros row c Hc Hi. apply Hkeep. right. eauto.
Qed.

Lemma deselect_all_run (cue_type : CueType) (s : ListLayout) :
  rows_match s →
  ∃ sel',
    deselect_all cue_type s = (Ok tt, with_selected sel' s) ∧
    length sel' = length (selected (listView s)) ∧
    (∀ row c, _list_model s !! row = Some c →
              isinstance c cue_type = true → sel' !! row = Some false) ∧
    (∀ row c, _list_model s !! row = Some c →
              isinstance c cue_type = false →
              sel' !! row = selected (listView s) !! row).
Proof.
  intros Hrows. unfold rows_match in Hrows.
  unfold deselect_all, topLevelItemCount, gets, range. unfold bind at 1.
  rewrite Nat2Z.id.
  destruct (mark_loop false cue_type (length (selected (listView s))) 0 s)
    as (sel' & Hrun & Hlen & Hset & Hkeep); [lia..|].
  exists sel'. split; [done|]. split; [done|]. split.
  - intros row c Hc Hi. apply (Hset row c); [|done..].
    apply lookup_lt_Some in Hc. lia.
  - intros row c Hc Hi. apply Hkeep. right. eauto.
Qed.

(** A list of flags that are all [b]. *)
Lemma all_flags (b : bool) (n : nat) (sel : list bool) :
  length sel = n → (∀ row, (row < n)%nat → sel !! row = Some b) →
  sel = replicate n b.
Proof.
  intros Hlen Hall. apply list_eq. intros row.
  destruct (decide (row < n)%nat) as [Hlt|Hge].
  - rewrite Hall by done. symmetry. by apply lookup_replicate_2.
  - rewrite !lookup_ge_None_2; [done|rewrite length_replicate; lia|lia].
Qed.

Lemma isinstance_Cue (c : CueObj) : isinstance c Cue = true.
Proof. done. Qed.

Lemma select_all_Cue (s : ListLayout) :
  rows_match s →
  select_all Cue s =
    (Ok tt, with_selected (replicate (length (_list_model s)) true) s).
Proof.
  intros Hrows.
  destruct (select_all_run Cue s Hrows) as (sel' & -> & Hlen & Hset & _).
  do 2 f_equal. apply all_flags; [by rewrite Hlen|].
  intros row Hrow.
  destruct (lookup_lt_is_Some_2 (_list_model s) row Hrow) as [c Hc].
  by apply (Hset row c).
Qed.

Lemma deselect_all_Cue (s : ListLayout) :
  rows_match s →
  deselect_all Cue s =
    (Ok tt, with_selected (replicate (length (_list_model s)) false) s).
Proof.
  intros Hrows.
  destruct (deselect_all_run Cue s Hrows) as (sel' & -> & Hlen & Hset & _).
  do 2 f_equal. apply all_flags; [by rewrite Hlen|].
  intros row Hrow.
  destruct (lookup_lt_is_Some_2 (_list_model s) row Hrow) as [c Hc].
  by apply (Hset row c).
Qed.

(** X1: when the view shows one row per cue, [select_all(cue_type)] returns
    normally, selects every row whose cue is an instance of [cue_type] and
    leaves the flag of every other row as it was; the collection, the cursor
    and the emitted events are untouched. *)
Theorem select_all_selects_instances (cue_type : CueType) (s : ListLayout) :
  rows_match s →
  ∃ s',
    select_all cue_type s = (Ok tt, s') ∧
    (∀ (row : nat) (c : CueObj) (x : bool),
       _list_model s !! row = Some c →
       selected (listView s) !! row = Some x →
       selected (listView s') !! row = Some (isinstance c cue_type || x)) ∧
    rows_match s' ∧
    _list_model s' = _list_model s ∧
    standby (listView s') = standby (listView s) ∧
    _auto_continue s' = _auto_continue s ∧
    emitted s' = emitted s.
Proof.
  intros Hrows.
  destruct (select_all_run cue_type s Hrows)
    as (sel' & Hrun & Hlen & Hset & Hkeep).
  exists (with_selected sel' s). split; [done|].
  split; [|repeat split; try done; unfold rows_match in *; simpl; congruence].
  intros row c x Hc Hx. simpl.
  destruct (isinstance c cue_type) eqn:Hi; simpl.
  - by apply (Hset row c).
  - by rewrite (Hkeep row c).
Qed.

Lemma select_all_selects_instances_witness :
  ∃ s',
    select_all LightCue (abc_layout true (Some 0) [true; false; false])
      = (Ok tt, s') ∧
    selected (listView s') = [true; true; false].
Proof.
  destruct (select_all_selects_instances LightCue
              (abc_layout true (Some 0) [true; false; false]) eq_refl)
    as (s' & Hrun & _).
  exists s'. split; [done|]. by injection Hrun as <-.
Defined.

(** X2: when the view shows one row per cue, [deselect_all(cue_type)]
    returns normally, clears the flag of every row whose cue is an instance
    of [cue_type] and leaves every other row as it was; the collection, the
    cursor and the emitted events are untouched. *)
Theorem deselect_all_clears_instances (cue_type : CueType) (s : ListLayout) :
  rows_match s →
  ∃ s',
    deselect_all cue_type s = (Ok tt, s') ∧
    (∀ (row : nat) (c : CueObj) (x : bool),
       _list_model s !! row = Some c →
       selected (listView s) !! row = Some x →
       selected (listView s') !! row =
         Some (x && negb (isinstance c cue_type))) ∧
    rows_match s' ∧
    _list_model s' = _list_model s ∧
    standby (listView s') = standby (listView s) ∧
    _auto_continue s' = _auto_continue s ∧
    emitted s' = emitted s.
Proof.
  intros Hrows.
  destruct (deselect_all_run cue_type s Hrows)
    as (sel' & Hrun & Hlen & Hset & Hkeep).
  exists (with_selected sel' s). split; [done|].
  split; [|repeat split; try done; unfold rows_match in *; simpl; congruence].
  intros row c x Hc Hx. simpl.
  destruct (isinstance c cue_type) eqn:Hi; simpl.
  - rewrite andb_false_r. by apply (Hset row c).
  - rewrite andb_true_r. by rewrite (Hkeep row c).
Qed.

Lemma deselect_all_clears_instances_witness :
  ∃ s',
    deselect_all LightCue (abc_layout true (Some 0) [true; true; false])
      = (Ok tt, s') ∧
    selected (listView s') = [true; false; false].
Proof.
  destruct (deselect_all_clears_instances LightCue
              (abc_layout true (Some 0) [true; true; false]) eq_refl)
    as (s' & Hrun & _).
  exists s'. split; [done|]. by injection Hrun as <-.
Defined.

(** X3: on a view with one row per cue, [deselect_all()], [select_all()]
    and [invert_selection()] in a row, each with its default class, end
    with no row selected, whatever was selected before. *)
Theorem deselect_select_invert_empties (s : ListLayout) :
  rows_match s →
  (deselect_all Cue ;; select_all Cue ;; invert_selection) s =
    (Ok tt, with_selected (replicate (length (_list_model s)) false) s).
Proof.
  intros Hrows. unfold bind.
  rewrite deselect_all_Cue by done.
  rewrite select_all_Cue by (unfold rows_match; simpl;
                             by rewrite length_replicate).
  rewrite invert_selection_eq. simpl.
  by rewrite fmap_replicate.
Qed.

Lemma deselect_select_invert_empties_witness :
  (deselect_all Cue ;; select_all Cue ;; invert_selection)
    (abc_layout true (Some 0) [true; false; true]) =
  (Ok tt, abc_layout true (Some 0) [false; false; false]).
Proof.
  apply (deselect_select_invert_empties
           (abc_layout true (Some 0) [true; false; true])).
  reflexivity.
Defined.

(** X4: when the view has more rows than the collection has cues,
    [select_all] and [deselect_all] raise [IndexError] at the first row
    without a cue; the rows visited before keep what the loop did to them
    (every row whose cue is an instance is already set) and the rows from
    there on are untouched. *)
Theorem select_all_more_rows_raises (cue_type : CueType) (b : bool)
    (s : ListLayout) :
  (length (_list_model s) < length (selected (listView s)))%nat →
  ∃ sel',
    (if b then select_all cue_type else deselect_all cue_type) s =
      (Raise IndexError, with_selected sel' s) ∧
    (∀ row c, _list_model s !! row = Some c →
              isinstance c cue_type = true → sel' !! row = Some b) ∧
    (∀ row, (length (_list_model s) ≤ row)%nat →
            sel' !! row = selected (listView s) !! row).
Proof.
  intros Hlt.
  destruct (mark_loop b cue_type (length (_list_model s)) 0 s)
    as (sel' & Hrun & Hlen & Hset & Hkeep); [lia..|].
  exists sel'. split; [|split].
  - assert (Hseq : seq 0 (length (selected (listView s))) =
                   seq 0 (length (_list_model s)) ++
                   length (_list_model s) ::
                   seq (S (length (_list_model s)))
                     (length (selected (listView s)) -
                      S (length (_list_model s)))).
    { rewrite cons_seq, <- seq_app. f_equal. lia. }
    destruct b;
      unfold select_all, deselect_all, topLevelItemCount, gets, range;
      unfold bind at 1; rewrite Nat2Z.id, Hseq, fmap_app, for_each_app, Hrun;
      rewrite fmap_cons, for_each_cons;
      unfold bind at 1; unfold item; simpl;
      by rewrite bool_decide_eq_false_2 by lia.
  - intros row c Hc Hi. apply (Hset row c); [|done..].
    apply lookup_lt_Some in Hc. lia.
  - intros row Hrow. apply Hkeep. left. lia.
Qed.

Lemma select_all_more_rows_raises_witness :
  select_all LightCue
    (mkLayout [cueA; cueB] true (mkView [false; false; false] (Some 0)) []) =
  (Raise IndexError,
   mkLayout [cueA; cueB] true (mkView [false; true; false] (Some 0)) []).
Proof.
  destruct (select_all_more_rows_raises LightCue true
              (mkLayout [cueA; cueB] true
                 (mkView [false; false; false] (Some 0)) []))
    as (sel' & Hrun & _); [simpl; lia|].
  simpl in Hrun. rewrite Hrun. by injection Hrun as <-.
Defined.

(** ** [selected_cues] *)

Lemma chosen_sublist (l : list CueObj) :
  ∀ sel, chosen l sel `sublist_of` l.
Proof.
  induction l as [|c l IH]; intros [|[] sel]; simpl;
    try apply sublist_nil_l.
  - by apply sublist_skip.
  - by apply sublist_cons.
Qed.

Lemma elem_of_chosen (l : list CueObj) :
  ∀ sel c,
    c ∈ chosen l sel ↔
    ∃ row : nat, l !! row = Some c ∧ sel !! row = Some true.
Proof.
  induction l as [|c0 l IH]; intros sel c.
  - simpl. split; [by intros ?%elem_of_nil|]. by intros (row & ? & _).
  - destruct sel as [|b sel].
    { simpl. split; [by intros ?%elem_of_nil|]. by intros (row & _ & ?). }
    assert (Htail : c ∈ chosen l sel ↔
                    ∃ row : nat, (c0 :: l) !! S row = Some c ∧
                                 (b :: sel) !! S row = Some true)
      by apply IH.
    destruct b; simpl chosen; rewrite ?elem_of_cons, Htail; split.
    + intros [->|(row & ?)]; [by exists 0%nat|by exists (S row)].
    + intros ([|row] & Hc & Hs); [left; by injection Hc|right; eauto].
    + intros (row & ?). by exists (S row).
    + intros ([|row] & Hc & Hs); [done|eauto].
Qed.

Lemma chosen_all (l : list CueObj) : chosen l (replicate (length l) true) = l.
Proof. induction l as [|c l IH]; simpl; [done|by rewrite IH]. Qed.

Lemma chosen_none (l : list CueObj) :
  chosen l (replicate (length l) false) = [].
Proof. induction l as [|c l IH]; simpl; [done|by rewrite IH]. Qed.

Lemma selected_rows_bound (sel : list bool) :
  ∀ k : nat,
    Forall (λ row, (row < k + length sel)%nat) (selected_rows k sel).
Proof.
  induction sel as [|b sel IH]; intros k; simpl; [done|].
  apply Forall_app. split.
  - destruct b; [|done]. apply Forall_singleton. lia.
  - eapply Forall_impl; [apply (IH (S k))|]. simpl. intros; lia.
Qed.

(** The loop of [selected_cues] over rows that all have a cue: one cue for
    each item, in the order of the items. *)
Lemma selected_cues_from_lookup (its : list nat) (s : ListLayout) :
  Forall (λ row, (row < length (_list_model s))%nat) its →
  selected_cues_from its s = (Ok (omap (λ row, _list_model s !! row) its), s) ∧
  Forall2 (λ row c, _list_model s !! row = Some c)
    its (omap (λ row, _list_model s !! row) its).
Proof.
  induction its as [|it its IH]; intros Hits; [done|].
  apply Forall_cons in Hits as [Hit Hits].
  destruct (IH Hits) as [Hrun Hall].
  destruct (lookup_lt_is_Some_2 (_list_model s) it Hit) as [c Hc].
  simpl. rewrite Hc. split.
  - unfold indexOfTopLevelItem, ret. unfold bind at 1. unfold bind at 1.
    rewrite (item_Ok _ _ c) by (rewrite ?Nat2Z.id; done || lia).
    unfold bind. by rewrite Hrun.
  - by constructor.
Qed.

Lemma omap_selected_rows (l : list CueObj) (sel : list bool) :
  length sel = length l →
  omap (λ row, l !! row) (selected_rows 0 sel) = chosen l sel.
Proof.
  intros Hlen.
  pose (s := mkLayout l true (mkView sel None) []).
  pose proof (selected_cues_from_rows sel l [] s eq_refl Hlen) as H1.
  destruct (selected_cues_from_lookup (selected_rows 0 sel) s) as [H2 _].
  { pose proof (selected_rows_bound sel 0) as Hb. simpl in *.
    by rewrite <- Hlen. }
  simpl in H1. rewrite H1 in H2. by injection H2.
Qed.

(** What [selected_cues] yields under any order of the widget. *)
Lemma selected_cues_in_order (o : SelectionOrder) (cue_type : CueType)
    (s : ListLayout) :
  lists_selected_rows o → rows_match s →
  selected_cues cue_type s =
    (Ok (omap (λ row, _list_model s !! row)
           (selection_order (selected (listView s)))), s) ∧
  Forall2 (λ row c, _list_model s !! row = Some c)
    (selection_order (selected (listView s)))
    (omap (λ row, _list_model s !! row)
       (selection_order (selected (listView s)))) ∧
  omap (λ row, _list_model s !! row)
    (selection_order (selected (listView s))) ≡ₚ
  chosen (_list_model s) (selected (listView s)).
Proof.
  intros Ho Hrows. unfold rows_match in Hrows.
  destruct (selected_cues_from_lookup
              (selection_order (selected (listView s))) s) as [Hrun Hall].
  { rewrite (Ho (selected (listView s))).
    pose proof (selected_rows_bound (selected (listView s)) 0) as Hb.
    simpl in Hb. by rewrite <- Hrows. }
  split; [|split; [done|]].
  - unfold selected_cues, selectedItems, gets. by unfold bind at 1.
  - rewrite (Ho (selected (listView s))). by rewrite omap_selected_rows.
Qed.

Lemma reverse_order_lists : lists_selected_rows reverse_order.
Proof. intros sel. apply reverse_Permutation. Qed.

(** X5: when the view shows one row per cue, [selected_cues(cue_type)]
    returns normally without changing the layout and yields the cue of each
    selected row, once, in the order in which the widget lists its selected
    items, whatever that order is; the class passed in plays no part, so
    every class yields what the default class yields. *)
Theorem selected_cues_yields_selected_rows (o : SelectionOrder)
    (cue_type : CueType) (s : ListLayout) :
  lists_selected_rows o →
  rows_match s →
  ∃ yielded,
    selected_cues cue_type s = (Ok yielded, s) ∧
    selected_cues Cue s = (Ok yielded, s) ∧
    Forall2 (λ row c, _list_model s !! row = Some c)
      (selection_order (selected (listView s))) yielded ∧
    yielded ≡ₚ chosen (_list_model s) (selected (listView s)) ∧
    (∀ c, c ∈ yielded ↔
          ∃ row : nat, _list_model s !! row = Some c ∧
                       selected (listView s) !! row = Some true).
Proof.
  intros Ho Hrows.
  destruct (selected_cues_in_order o cue_type s Ho Hrows)
    as (Hrun & Hall & Hperm).
  destruct (selected_cues_in_order o Cue s Ho Hrows) as (Hrun' & _).
  eexists. split; [exact Hrun|]. split; [exact Hrun'|].
  split; [done|]. split; [done|].
  intros c. rewrite Hperm. apply elem_of_chosen.
Qed.

Lemma selected_cues_yields_selected_rows_witness :
  selected_cues (o:=reverse_order) ActionCue
    (abc_layout true (Some 0) [true; false; true]) =
    (Ok [cueC; cueA], abc_layout true (Some 0) [true; false; true]) ∧
  selected_cues (o:=row_order) ActionCue
    (abc_layout true (Some 0) [true; false; true]) =
    (Ok [cueA; cueC], abc_layout true (Some 0) [true; false; true]).
Proof.
  split.
  - destruct (selected_cues_yields_selected_rows reverse_order ActionCue
                (abc_layout true (Some 0) [true; false; true])
                reverse_order_lists eq_refl)
      as (yielded & Hrun & _).
    rewrite Hrun. by injection Hrun as <-.
  - destruct (selected_cues_yields_selected_rows row_order ActionCue
                (abc_layout true (Some 0) [true; false; true])
                (λ sel, reflexivity _) eq_refl)
      as (yielded & Hrun & _).
    rewrite Hrun. by injection Hrun as <-.
Defined.

(** X6: on a view with one row per cue, [selected_cues] yields the whole
    collection right after [select_all()] and nothing right after
    [deselect_all()], whatever was selected before. *)
Theorem selected_cues_after_select_all (cue_type : CueType)
    (s : ListLayout) :
  rows_match s →
  fst ((select_all Cue ;; selected_cues cue_type) s) = Ok (_list_model s) ∧
  fst ((deselect_all Cue ;; selected_cues cue_type) s) = Ok [].
Proof.
  intros Hrows. unfold bind.
  rewrite select_all_Cue, deselect_all_Cue by done.
  rewrite !selected_cues_eq
    by (unfold rows_match; simpl; by rewrite length_replicate).
  simpl. by rewrite chosen_all, chosen_none.
Qed.

Lemma selected_cues_after_select_all_witness :
  fst ((select_all Cue ;; selected_cues LightCue)
         (abc_layout true (Some 0) [false; true; false])) =
    Ok [cueA; cueB; cueC] ∧
  fst ((deselect_all Cue ;; selected_cues LightCue)
         (abc_layout true (Some 0) [false; true; false])) = Ok [].
Proof.
  apply (selected_cues_after_select_all LightCue
           (abc_layout true (Some 0) [false; true; false])).
  reflexivity.
Defined.

(** ** The GO button *)

Lemma go_clicks_auto (k : nat) :
  ∀ (p : Z) (s : ListLayout),
    _auto_continue s = true →
    standby (listView s) = Some p → 0 ≤ p →
    p + Z.of_nat k ≤ Z.of_nat (length (_list_model s)) →
    go_clicks k s =
      (Ok tt,
       with_standby (Some (p + Z.of_nat k))
         (with_emitted
            (emitted s ++
             (take k (drop (Z.to_nat p) (_list_model s)) ≫=
              λ c, [Execute c Default; CueExecuted c])) s)).
Proof.
  induction k as [|k IH]; intros p s Hauto Hp Hp0 Hle.
  - simpl. rewrite (right_id [] (++)), Z.add_0_r.
    destruct s as [l auto [sel cur] ev]. simpl in *. by subst.
  - destruct (lookup_lt_is_Some_2 (_list_model s) (Z.to_nat p)) as [c Hc];
      [lia|].
    simpl go_clicks. unfold bind, __go_slot.
    rewrite (go_on_standby s c p) by (done || lia).
    unfold after_go. rewrite Hauto. unfold reconcile.
    rewrite bool_decide_eq_false_2 by lia. rewrite clamp_id by lia.
    rewrite (IH (p + 1)); simpl; [|done|done|lia|lia].
    rewrite (drop_S _ _ _ Hc). simpl.
    replace (Z.to_nat (p + 1)) with (S (Z.to_nat p)) by lia.
    unfold with_standby, with_emitted, with_view. simpl.
    rewrite <- (assoc (++)). simpl.
    do 4 f_equal. lia.
Qed.

(** X7: once auto-next is switched on, k clicks on GO with the cursor on
    row p, where p + k does not go past the end, execute the k cues from row
    p on, one per click and in collection order, each followed by its
    cue-executed notification, and leave the cursor on row p + k. *)
Theorem go_clicks_walk_the_list (k : nat) (p : Z) (s : ListLayout) :
  standby (listView s) = Some p → 0 ≤ p →
  p + Z.of_nat k ≤ Z.of_nat (length (_list_model s)) →
  ∃ s',
    (_set_auto_next true ;; go_clicks k) s = (Ok tt, s') ∧
    emitted s' =
      emitted s ++
      (take k (drop (Z.to_nat p) (_list_model s)) ≫=
       λ c, [Execute c Default; CueExecuted c]) ∧
    standby (listView s') = Some (p + Z.of_nat k) ∧
    _list_model s' = _list_model s ∧
    selected (listView s') = selected (listView s).
Proof.
  intros Hp Hp0 Hle. unfold bind, _set_auto_next, modify.
  rewrite (go_clicks_auto k p) by done.
  eexists. split; [reflexivity|]. done.
Qed.

Lemma go_clicks_walk_the_list_witness :
  ∃ s',
    (_set_auto_next true ;; go_clicks 2)
      (abc_layout false (Some 1) [false; false; false]) = (Ok tt, s') ∧
    emitted s' = [Execute cueB Default; CueExecuted cueB;
                  Execute cueC Default; CueExecuted cueC] ∧
    standby (listView s') = Some 3.
Proof.
  destruct (go_clicks_walk_the_list 2 1
              (abc_layout false (Some 1) [false; false; false]))
    as (s' & Hrun & Hev & Hcur & _); [done|lia|simpl; lia|].
  exists s'. done.
Defined.

Lemma go_clicks_manual (k : nat) (c : CueObj) (p : Z) :
  ∀ s : ListLayout,
    _auto_continue s = false →
    standby (listView s) = Some p →
    0 ≤ p < Z.of_nat (length (_list_model s)) →
    _list_model s !! Z.to_nat p = Some c →
    go_clicks k s =
      (Ok tt,
       with_emitted
         (emitted s ++
          concat (replicate k [Execute c Default; CueExecuted c])) s).
Proof.
  induction k as [|k IH]; intros s Hauto Hp Hrange Hc.
  - simpl. rewrite (right_id [] (++)).
    by destruct s as [l auto [sel cur] ev].
  - simpl go_clicks. unfold bind, __go_slot.
    rewrite (go_on_standby s c p) by done.
    unfold after_go. rewrite Hauto.
    rewrite IH by done. simpl.
    unfold with_emitted. simpl. by rewrite <- (assoc (++)).
Qed.

(** X8: once auto-next is switched off, every click on GO executes the same
    standby cue again and emits its notification again; the cursor never
    moves. *)
Theorem go_clicks_repeat_standby (k : nat) (c : CueObj) (s : ListLayout) :
  fst (standby_cue s) = Ok (Some c) →
  ∃ s',
    (_set_auto_next false ;; go_clicks k) s = (Ok tt, s') ∧
    emitted s' =
      emitted s ++ concat (replicate k [Execute c Default; CueExecuted c]) ∧
    standby (listView s') = standby (listView s) ∧
    _list_model s' = _list_model s ∧
    selected (listView s') = selected (listView s).
Proof.
  intros Hc. apply standby_cue_Some in Hc as (p & Hp & Hrange & Hlook).
  unfold bind, _set_auto_next, modify.
  rewrite (go_clicks_manual k c p) by done.
  eexists. split; [reflexivity|]. done.
Qed.

Lemma go_clicks_repeat_standby_witness :
  ∃ s',
    (_set_auto_next false ;; go_clicks 2)
      (abc_layout true (Some 1) [false; false; false]) = (Ok tt, s') ∧
    emitted s' = [Execute cueB Default; CueExecuted cueB;
                  Execute cueB Default; CueExecuted cueB] ∧
    standby (listView s') = Some 1.
Proof.
  destruct (go_clicks_repeat_standby 2 cueB
              (abc_layout true (Some 1) [false; false; false]) eq_refl)
    as (s' & Hrun & Hev & Hcur & _).
  exists s'. done.
Defined.

(** ** Keys *)

(** A test of one bit: the masked value is the bit or nothing. *)
Lemma land_pow2 (m n : Z) :
  0 ≤ n → Z.land m (2 ^ n) = if Z.testbit m n then 2 ^ n else 0.
Proof.
  intros Hn. apply Z.bits_inj'. intros i Hi.
  rewrite Z.land_spec, Z.pow2_bits_eqb by done.
  destruct (Z.eqb_spec n i) as [->|Hne].
  - destruct (Z.testbit m i); simpl.
    + by rewrite Z.pow2_bits_true.
    + by rewrite Z.bits_0.
  - rewrite andb_false_r.
    destruct (Z.testbit m n); [|by rewrite Z.bits_0].
    by rewrite Z.pow2_bits_false.
Qed.

Lemma keys_add_modifier (m n keys : Z) :
  0 ≤ n →
  (if truthy (Z.land m (2 ^ n)) then keys + 2 ^ n else keys) =
  keys + Z.land m (2 ^ n).
Proof.
  intros Hn. unfold truthy. rewrite land_pow2 by done.
  assert (0 < 2 ^ n) by (apply Z.pow_pos_nonneg; lia).
  destruct (Z.testbit m n).
  - rewrite bool_decide_eq_true_2 by lia. done.
  - rewrite bool_decide_eq_false_2 by lia. lia.
Qed.

Lemma land_add_disjoint (m a b : Z) :
  Z.land a b = 0 → Z.land m a + Z.land m b = Z.land m (a + b).
Proof.
  intros Hab.
  assert (Z.land (Z.land m a) (Z.land m b) = 0) as Hdis.
  { apply Z.bits_inj'. intros i Hi.
    rewrite !Z.land_spec, Z.bits_0.
    assert (Z.testbit a i && Z.testbit b i = false) as Hi'
      by (rewrite <- Z.land_spec, Hab; apply Z.bits_0).
    destruct (Z.testbit m i), (Z.testbit a i), (Z.testbit b i); done. }
  rewrite (Z.add_nocarry_lxor _ _ Hdis), (Z.lxor_lor _ _ Hdis).
  rewrite (Z.add_nocarry_lxor _ _ Hab), (Z.lxor_lor _ _ Hab).
  by rewrite Z.land_lor_distr_r.
Qed.

(** The code the handler looks up: the key plus the four modifier bits of
    the event that a key sequence knows; every other bit of the modifiers
    is dropped. *)
Lemma combined_keys_eq (event : QKeyEvent) :
  combined_keys event = key event + Z.land (modifiers event) 0x1E000000.
Proof.
  unfold combined_keys, Qt_ShiftModifier, Qt_ControlModifier,
    Qt_AltModifier, Qt_MetaModifier, Qt_SHIFT, Qt_CTRL, Qt_ALT, Qt_META.
  change 0x02000000 with (2 ^ 25). change 0x04000000 with (2 ^ 26).
  change 0x08000000 with (2 ^ 27). change 0x10000000 with (2 ^ 28).
  rewrite !keys_add_modifier by lia.
  rewrite <- !(assoc Z.add).
  rewrite !land_add_disjoint by done. done.
Qed.

(** X9: a key press that is not an auto-repeat and whose code, the key plus
    the Shift, Control, Alt and Meta bits of its modifiers, is in the GO key
    sequence is accepted and does exactly what one [go()] does; any other
    modifier bit is ignored, and no cue is handed to the editor even when
    the key is Shift+Space. *)
Theorem key_pressed_go_key (in_go_key_sequence : Z → bool)
    (event : QKeyEvent) (s : ListLayout) :
  isAutoRepeat event = false →
  in_go_key_sequence (key event + Z.land (modifiers event) 0x1E000000)
    = true →
  _key_pressed in_go_key_sequence event s =
    (Ok (true, None), snd (go Default 1 s)) ∧
  fst (go Default 1 s) = Ok tt.
Proof.
  intros Hrep Hgo. unfold _key_pressed.
  rewrite Hrep, combined_keys_eq, Hgo. simpl. unfold bind.
  destruct (cue_on_standby s) as [c|] eqn:Hc.
  - unfold cue_on_standby in Hc.
    destruct (standby (listView s)) as [p|] eqn:Hp; [|done].
    case_bool_decide as Hrange; [|done].
    by rewrite (go_on_standby s c p).
  - unfold go, bind. by rewrite standby_cue_eq, Hc.
Qed.

Lemma key_pressed_go_key_witness :
  ∃ s',
    _key_pressed (λ keys, keys =? 0x02000020)
      (mkKeyEvent 0x20 0x22000000 false)
      (abc_layout true (Some 0) [false; false; false]) =
      (Ok (true, None), s') ∧
    emitted s' = [Execute cueA Default; CueExecuted cueA] ∧
    standby (listView s') = Some 1.
Proof.
  destruct (key_pressed_go_key (λ keys, keys =? 0x02000020)
              (mkKeyEvent 0x20 0x22000000 false)
              (abc_layout true (Some 0) [false; false; false])
              eq_refl eq_refl) as [Hrun _].
  eexists. split; [exact Hrun|]. done.
Defined.

(** X10: a key press leaves the layout as it was unless it is a first press
    (not an auto-repeat) of a key of the GO sequence: an auto-repeat is
    ignored whatever the key, and a key outside the GO sequence executes
    nothing and moves nothing. *)
Theorem key_pressed_other_keys_inert (in_go_key_sequence : Z → bool)
    (event : QKeyEvent) (s : ListLayout) :
  isAutoRepeat event = true ∨
  in_go_key_sequence (key event + Z.land (modifiers event) 0x1E000000)
    = false →
  snd (_key_pressed in_go_key_sequence event s) = s ∧
  (isAutoRepeat event = true →
   _key_pressed in_go_key_sequence event s = (Ok (false, None), s)).
Proof.
  intros H. unfold _key_pressed. rewrite combined_keys_eq.
  destruct (isAutoRepeat event); simpl; [done|].
  destruct H as [H|H]; [done|]. rewrite H. split; [|done].
  repeat case_bool_decide; try done.
  unfold bind. rewrite standby_cue_eq.
  by destruct (cue_on_standby s).
Qed.

Lemma key_pressed_other_keys_inert_witness :
  _key_pressed (λ keys, keys =? 0x20)
    (mkKeyEvent 0x20 0 true)
    (abc_layout true (Some 0) [false; false; false]) =
  (Ok (false, None), abc_layout true (Some 0) [false; false; false]).
Proof.
  apply (proj2 (key_pressed_other_keys_inert (λ keys, keys =? 0x20)
                  (mkKeyEvent 0x20 0 true)
                  (abc_layout true (Some 0) [false; false; false])
                  (or_introl eq_refl))).
  reflexivity.
Defined.

(** X11: a first press of Space that is not a GO key is accepted exactly
    when Shift is the only modifier, and it then hands the standby cue, if
    there is one, to the editor, as a double click does; with any further
    modifier the event stays ignored and no cue is edited. *)
Theorem key_pressed_shift_space_edits (in_go_key_sequence : Z → bool)
    (event : QKeyEvent) (s : ListLayout) :
  isAutoRepeat event = false →
  in_go_key_sequence (key event + Z.land (modifiers event) 0x1E000000)
    = false →
  key event = Qt_Key_Space →
  ∃ standby_cue_,
    standby_cue s = (Ok standby_cue_, s) ∧
    _double_clicked s = (Ok standby_cue_, s) ∧
    _key_pressed in_go_key_sequence event s =
      (Ok (if bool_decide (modifiers event = Qt_ShiftModifier)
           then (true, standby_cue_) else (false, None)), s).
Proof.
  intros Hrep Hgo Hkey. exists (cue_on_standby s).
  split; [apply standby_cue_eq|].
  unfold _double_clicked, _key_pressed.
  rewrite Hrep, combined_keys_eq, Hgo, Hkey. simpl.
  unfold bind. rewrite standby_cue_eq.
  split; [by destruct (cue_on_standby s)|].
  case_bool_decide; [|done]. cbv beta. rewrite standby_cue_eq.
  by destruct (cue_on_standby s).
Qed.

Lemma key_pressed_shift_space_edits_witness :
  _key_pressed (λ keys, keys =? 0x20)
    (mkKeyEvent 0x20 0x02000000 false)
    (abc_layout true (Some 1) [false; false; false]) =
    (Ok (true, Some cueB), abc_layout true (Some 1) [false; false; false]) ∧
  _key_pressed (λ keys, keys =? 0x20)
    (mkKeyEvent 0x20 0x22000000 false)
    (abc_layout true (Some 1) [false; false; false]) =
    (Ok (false, None), abc_layout true (Some 1) [false; false; false]).
Proof.
  split.
  - destruct (key_pressed_shift_space_edits
                (λ keys, keys =? 0x20)
                (mkKeyEvent 0x20 0x02000000 false)
                (abc_layout true (Some 1) [false; false; false])
                eq_refl eq_refl eq_refl) as (o & Ho & _ & Hrun).
    rewrite Hrun. by injection Ho as <-.
  - destruct (key_pressed_shift_space_edits
                (λ keys, keys =? 0x20)
                (mkKeyEvent 0x20 0x22000000 false)
                (abc_layout true (Some 1) [false; false; false])
                eq_refl eq_refl eq_refl) as (o & Ho & _ & Hrun).
    by rewrite Hrun.
Defined.

(** ** The context menu of the list *)

Lemma item_state (i : Z) (s : ListLayout) : snd (item i s) = s.
Proof. by destruct (item_inv i s) as [(c & _ & _ & ->)|[_ ->]]. Qed.

Lemma selected_cues_from_state (its : list nat) (s : ListLayout) :
  snd (selected_cues_from its s) = s.
Proof.
  induction its as [|it its IH]; [done|]. simpl.
  unfold indexOfTopLevelItem, ret. unfold bind at 1. unfold bind at 1.
  pose proof (item_state (Z.of_nat it) s) as Hit.
  destruct (item (Z.of_nat it) s) as [[c|e] s1]; simpl in Hit; subst s1;
    [|done].
  unfold bind. destruct (selected_cues_from its s) as [[rest|e] s1];
    simpl in IH; by subst s1.
Qed.

Lemma selected_cues_state (cue_type : CueType) (s : ListLayout) :
  snd (selected_cues cue_type s) = s.
Proof.
  unfold selected_cues, selectedItems, gets. unfold bind at 1.
  apply selected_cues_from_state.
Qed.

Lemma context_invoked_state (itemAt : option nat) (indexAt : option Z)
    (s : ListLayout) :
  snd (_context_invoked itemAt indexAt s) = s.
Proof.
  unfold _context_invoked. destruct itemAt as [it|]; [|done].
  unfold bind at 1. pose proof (selected_cues_state Cue s) as Hs.
  destruct (selected_cues Cue s) as [[[|c cues]|e] s1]; simpl in Hs;
    subst s1; [|done..].
  destruct indexAt as [row|]; [|done].
  unfold bind, ret. pose proof (item_state row s) as Hi.
  by destruct (item row s) as [[c|e] s1].
Qed.

(** X12: whatever is under the pointer and whatever is selected, a context
    event never opens the cue menu on an empty list of cues, and never
    changes the layout. *)
Theorem context_invoked_never_empty (itemAt : option nat)
    (indexAt : option Z) (s : ListLayout) :
  fst (_context_invoked itemAt indexAt s) ≠
    Ok (Some (show_cue_context_menu [])) ∧
  snd (_context_invoked itemAt indexAt s) = s.
Proof.
  split; [|apply context_invoked_state].
  unfold _context_invoked. destruct itemAt as [it|]; [|done].
  unfold bind at 1.
  destruct (selected_cues Cue s) as [[[|c cues]|e] s1];
    [|by unfold ret..].
  destruct indexAt as [row|]; [|done].
  unfold bind, ret. by destruct (item row s1) as [[c|e] s2].
Qed.

(** X13: with an item under the pointer and one row per cue, the cue menu
    opens on what [selected_cues] yields, the cue of each selected row once,
    in the widget's order, whenever any row is selected, whether or not
    the row under the pointer is one of them; with no row selected it opens
    on the cue of the row under the pointer alone. *)
Theorem context_invoked_targets (o : SelectionOrder) (it : nat)
    (indexAt : option Z) (s : ListLayout) :
  lists_selected_rows o →
  rows_match s →
  (chosen (_list_model s) (selected (listView s)) ≠ [] →
   ∃ cues,
     _context_invoked (Some it) indexAt s =
       (Ok (Some (show_cue_context_menu cues)), s) ∧
     selected_cues Cue s = (Ok cues, s) ∧
     cues ≡ₚ chosen (_list_model s) (selected (listView s))) ∧
  (chosen (_list_model s) (selected (listView s)) = [] →
   ∀ (row : Z) (c : CueObj),
     indexAt = Some row → 0 ≤ row →
     _list_model s !! Z.to_nat row = Some c →
     _context_invoked (Some it) indexAt s =
       (Ok (Some (show_cue_context_menu [c])), s)).
Proof.
  intros Ho Hrows.
  destruct (selected_cues_in_order o Cue s Ho Hrows) as (Hrun & _ & Hperm).
  unfold _context_invoked. unfold bind at 1. unfold bind at 2.
  rewrite Hrun.
  destruct (omap _ _) as [|c0 cues] eqn:Hy.
  - split.
    + intros Hne. destruct Hne. symmetry. by apply Permutation_nil_l.
    + intros _ row c -> Hrow Hc.
      unfold bind. by rewrite (item_Ok row s c).
  - split.
    + intros _. by exists (c0 :: cues).
    + intros Hnil. rewrite Hnil in Hperm.
      by apply Permutation_nil_r in Hperm.
Qed.

Lemma context_invoked_targets_witness :
  _context_invoked (o:=reverse_order) (Some 1%nat) (Some 1)
    (abc_layout true (Some 0) [true; false; true]) =
    (Ok (Some (show_cue_context_menu [cueC; cueA])),
     abc_layout true (Some 0) [true; false; true]) ∧
  _context_invoked (o:=reverse_order) (Some 1%nat) (Some 1)
    (abc_layout true (Some 0) [false; false; false]) =
    (Ok (Some (show_cue_context_menu [cueB])),
     abc_layout true (Some 0) [false; false; false]).
Proof.
  split.
  - destruct (proj1 (context_invoked_targets reverse_order 1 (Some 1)
                       (abc_layout true (Some 0) [true; false; true])
                       reverse_order_lists eq_refl))
      as (cues & Hrun & _); [done|].
    rewrite Hrun. by injection Hrun as <-.
  - apply (proj2 (context_invoked_targets reverse_order 1 (Some 1)
                    (abc_layout true (Some 0) [false; false; false])
                    reverse_order_lists eq_refl) eq_refl 1 cueB); done.
Defined.

(** ** Selection mode *)

(** X14: on a view with one row per cue, leaving selection mode clears the
    selection of every row before the list stops accepting selections, so
    that [selected_cues] then yields nothing; entering selection mode keeps
    the layout as it is. *)
Theorem set_selection_mode_off_clears (s : ListLayout) :
  rows_match s →
  _set_selection_mode false s =
    (Ok NoSelection,
     with_selected (replicate (length (_list_model s)) false) s) ∧
  fst ((_set_selection_mode false ;; selected_cues Cue) s) = Ok [] ∧
  _set_selection_mode true s = (Ok ExtendedSelection, s).
Proof.
  intros Hrows. unfold _set_selection_mode, bind.
  rewrite deselect_all_Cue by done. split; [done|]. split; [|done].
  unfold ret. cbv beta iota. rewrite selected_cues_eq
    by (unfold rows_match; simpl; by rewrite length_replicate).
  simpl. by rewrite chosen_none.
Qed.

Lemma set_selection_mode_off_clears_witness :
  _set_selection_mode false (abc_layout true (Some 0) [true; false; true]) =
    (Ok NoSelection, abc_layout true (Some 0) [false; false; false]).
Proof.
  apply (set_selection_mode_off_clears
           (abc_layout true (Some 0) [true; false; true])).
  reflexivity.
Defined.

(** ** The context menu of the base layout *)

(** X15: the menu is moved up by its height exactly when, placed at the
    point asked for, it would pass the bottom edge of the desktop, and left
    by its width exactly when it would pass the right edge; otherwise it
    stays where it was asked for, and its size never changes.  A menu opened
    at a point of the desktop therefore ends with its bottom and right
    edges on the desktop. *)
Theorem show_context_menu_stays_on_desktop
    (registry : list CueLayout.RegistryItem) (position size : Z * Z)
    (desktop : CueLayout.QRect) :
  position.1 ≤ CueLayout.right desktop + 1 →
  position.2 ≤ CueLayout.bottom desktop + 1 →
  let menu :=
    snd (CueLayout.show_context_menu registry position size desktop) in
  CueLayout.ry menu =
    (if bool_decide (position.2 + size.2 - 1 > CueLayout.bottom desktop)
     then position.2 - size.2 else position.2) ∧
  CueLayout.rx menu =
    (if bool_decide (position.1 + size.1 - 1 > CueLayout.right desktop)
     then position.1 - size.1 else position.1) ∧
  CueLayout.bottom menu ≤ CueLayout.bottom desktop ∧
  CueLayout.right menu ≤ CueLayout.right desktop ∧
  CueLayout.rwidth menu = size.1 ∧
  CueLayout.rheight menu = size.2.
Proof.
  intros Hx Hy. destruct position as [x y], size as [w h]. simpl in *.
  unfold CueLayout.show_context_menu, CueLayout.bottom, CueLayout.right,
    CueLayout.move in *. simpl.
  repeat case_bool_decide; simpl; repeat split; lia.
Qed.

Lemma show_context_menu_stays_on_desktop_witness :
  snd (CueLayout.show_context_menu [] (1900, 1070) (200, 300)
         (CueLayout.mkRect 0 0 1920 1080)) =
    CueLayout.mkRect 1700 770 200 300 ∧
  CueLayout.bottom (CueLayout.mkRect 1700 770 200 300) ≤ 1079 ∧
  CueLayout.right (CueLayout.mkRect 1700 770 200 300) ≤ 1919.
Proof.
  pose proof (show_context_menu_stays_on_desktop [] (1900, 1070) (200, 300)
                (CueLayout.mkRect 0 0 1920 1080)) as H.
  split; [reflexivity|].
  destruct H as (_ & _ & Hb & Hr & _); [by vm_compute..|].
  split; [exact Hb|exact Hr].
Defined.

(** ** Bulk edit of a selection *)

(** With cues selected, [edit_selected_cues()] opens one settings
    dialog for the whole selection, and every time settings are applied one
    configure action is handed over that carries all the selected cues: the
    number of actions is the number of times settings were applied, whatever
    the number of cues. *)
Theorem edit_selected_cues_one_action_per_apply (Settings : Type)
    (cues : list CueObj) (applied : list Settings) :
  cues ≠ [] →
  ∃ cls,
    CueLayout.edit_selected_cues Settings cues applied =
      CueLayout.CueSettings Settings (Some cls) ::
      ((λ st, CueLayout.MultiConfigureAction Settings st cues) <$> applied) ∧
    length (CueLayout.edit_selected_cues Settings cues applied) =
      S (length applied).
Proof.
  intros Hne. unfold CueLayout.edit_selected_cues.
  rewrite bool_decide_eq_true_2 by done.
  destruct cues as [|c cues]; [done|]. simpl.
  eexists. split; [reflexivity|]. by rewrite length_fmap.
Qed.

Lemma edit_selected_cues_one_action_per_apply_witness :
  CueLayout.edit_selected_cues nat [cueA; cueB; cueC] [7%nat; 8%nat] =
    [CueLayout.CueSettings nat (Some Cue);
     CueLayout.MultiConfigureAction nat 7%nat [cueA; cueB; cueC];
     CueLayout.MultiConfigureAction nat 8%nat [cueA; cueB; cueC]].
Proof.
  destruct (edit_selected_cues_one_action_per_apply nat
              [cueA; cueB; cueC] [7%nat; 8%nat]) as (cls & Hrun & _);
    [done|].
  rewrite Hrun. by injection Hrun as <-.
Defined.

(** ** What a call leaves alone *)








